(** * hyper-tree: the mutation engine of [src/helpers/hooks.ts]

    A shallow embedding of the [useTreeState] hook: the handlers it builds
    ([setLoading], [setSelected], [setChildren], [setSiblings], [setOpen],
    [setOpenByPath], [handleDrop], ...) over a store of [TreeNode] objects
    and one [TreeView].

    [TreeNode] and [TreeView] live in [./node], which is not part of the
    sources at hand; their methods are modelled from the specification and
    marked as such.  Everything in the second half of the definitions is a
    transcription of [hooks.ts]. *)

From stdpp Require Import base option list gmap strings.
From Stdlib Require Import ZArith Ascii String.

Set Warnings "-register-all".

(** ** Identifiers and raw records *)

(** A node id is a JS [string | number]. *)
Inductive Id :=
| IdNum (n : Z)
| IdStr (s : string).

#[global] Instance Id_eq_dec : EqDecision Id.
Proof. solve_decision. Defined.

#[global] Instance Id_countable : Countable Id :=
  inj_countable'
    (λ i, match i with IdNum n => inl n | IdStr s => inr s end)
    (λ x, match x with inl n => IdNum n | inr s => IdStr s end)
    (λ i, match i with IdNum _ => eq_refl | IdStr _ => eq_refl end).

(** JS truthiness of an id: [0] and the empty string are falsy. *)
Definition truthyId (i : Id) : bool :=
  match i with
  | IdNum n => negb (n =? 0)%Z
  | IdStr s => negb (String.eqb s "")
  end.

(** The [getChildren] member of a raw record, as [setOpen] probes it:
    absent (or falsy), present but not callable, or a function.  A function
    is an opaque handle: what it returns is decided outside the engine. *)
Inductive GetChildren :=
| GcAbsent
| GcNotCallable
| GcFunction (f : nat).

(** [IData]: a raw record seen through the configured id key and children
    key, with an opaque payload. *)
Inductive IData := MkData {
  d_id : option Id;
  d_children : list IData;
  d_getChildren : GetChildren;
  d_payload : string
}.

(** [isFunction] of [./typeCheckers], applied to [data.getChildren]. *)
Definition isFunction (g : GetChildren) : bool :=
  match g with GcFunction _ => true | _ => false end.

Definition truthyGc (g : GetChildren) : bool :=
  match g with GcAbsent => false | _ => true end.

(** ** Nodes *)

(** Nodes are objects with identity: a node is named by its address in
    the store, and parent links and child lists hold addresses. *)
Abbreviation addr := positive (only parsing).

(** [dragContainer?: string | boolean], also the type of the [dropType]
    state of the hook. *)
Inductive DragContainer :=
| DcUndefined
| DcBool (b : bool)
| DcStr (s : string).

#[global] Instance DragContainer_eq_dec : EqDecision DragContainer.
Proof. solve_decision. Defined.

Record NodeOptions := MkOptions {
  parent : option positive;
  root : bool;
  leaf : bool;
  opened : bool;
  selected : bool;
  loading : bool;
  dropContainer : DragContainer
}.

Record TreeNode := MkNode {
  id : Id;
  data : IData;
  children : list positive;
  options : NodeOptions
}.

(** ['first' | 'last' | 'replace'] and ['before' | 'after']. *)
Inductive InsertChildType := ChildFirst | ChildLast | ChildReplace.
Inductive InsertSiblingType := SiblingBefore | SiblingAfter.

(** The store of node objects. *)
Abbreviation Store := (gmap positive TreeNode) (only parsing).

Definition setOpt (f : NodeOptions → NodeOptions) (n : TreeNode) : TreeNode :=
  MkNode (id n) (data n) (children n) (f (options n)).

(** Modelled from the spec: [TreeNode.setOpened], [setSelected], [setLoading]
    and [setNodeDropContainer] of [./node] (section 4.1: each sets its
    flag and touches nothing else). *)
Definition node_setOpened (b : bool) : TreeNode → TreeNode :=
  setOpt (λ o, MkOptions (parent o) (root o) (leaf o) b (selected o) (loading o) (dropContainer o)).
Definition node_setSelected (b : bool) : TreeNode → TreeNode :=
  setOpt (λ o, MkOptions (parent o) (root o) (leaf o) (opened o) b (loading o) (dropContainer o)).
Definition node_setLoading (b : bool) : TreeNode → TreeNode :=
  setOpt (λ o, MkOptions (parent o) (root o) (leaf o) (opened o) (selected o) b (dropContainer o)).
Definition node_setNodeDropContainer (d : DragContainer) : TreeNode → TreeNode :=
  setOpt (λ o, MkOptions (parent o) (root o) (leaf o) (opened o) (selected o) (loading o) d).

(** Modelled from the spec: [TreeNode.setData] of [./node] (replaces the
    payload, keeps id and children). *)
Definition node_setData (d : IData) (n : TreeNode) : TreeNode :=
  MkNode (id n) d (children n) (options n).

(** Modelled from the spec: [TreeNode.setNodeChildren] of [./node]
    (section 4.1: [reset = true] discards the existing children before
    inserting; otherwise the new children are prepended or appended; the
    leaf flag becomes false whenever the children become non-empty).  An
    omitted insert mode is taken as ['last']. *)
Definition node_setNodeChildren (cs : list positive) (type : option InsertChildType)
    (reset : bool) (n : TreeNode) : TreeNode :=
  let old := if reset then [] else children n in
  let new := match type with
             | Some ChildFirst => cs ++ old
             | Some ChildReplace => cs
             | Some ChildLast | None => old ++ cs
             end in
  let o := options n in
  MkNode (id n) (data n) new
    (MkOptions (parent o) (root o) (match new with [] => leaf o | _ => false end)
       (opened o) (selected o) (loading o) (dropContainer o)).

(** Modelled from the spec: [TreeNode.removeChild] of [./node]; the child
    is recognised by its id, as the root-level filter of [handleDrop] does. *)
Definition node_removeChild (h : gmap positive TreeNode) (c : Id) (n : TreeNode) : TreeNode :=
  MkNode (id n) (data n)
    (filter (λ a, (id <$> h !! a) ≠ Some c) (children n)) (options n).

(** ** The tree view *)

(** One entry of the flattened projection: the node, its depth and
    whether it has at least one child. *)
Record FlatNode := MkFlat {
  f_node : positive;
  f_depth : nat;
  f_hasChildren : bool
}.

(** [defaultOpened?: boolean | number[]]. *)
Inductive DefaultOpened :=
| DoUndefined
| DoBool (b : bool)
| DoList (l : list Z).

Record TreeViewOptions := MkTreeViewOptions {
  idKey : string;
  childrenKey : string;
  defaultOpened : DefaultOpened;
  filter_opt : option (IData → bool);
  enhance : bool;
  sort : TreeNode → TreeNode → Z
}.

Record TreeView := MkTreeView {
  tv_id : string;
  tv_options : TreeViewOptions;
  enhancedData : list positive;          (* the root nodes *)
  flattenedView : list FlatNode;         (* derived by [enhanceNodes] *)
  idIndex : gmap Id positive             (* derived by [enhanceNodes true] *)
}.

(** Pre-order walk of the nodes under [a], through the child lists.  The
    depth is bounded by the number of objects in the store; the bound
    loses no node ([elem_of_graph_reachable] below). *)
Fixpoint walk (fuel : nat) (h : gmap positive TreeNode) (a : positive) : list positive :=
  match fuel with
  | O => []
  | S fuel' =>
      match h !! a with
      | None => []
      | Some n => a :: flat_map (walk fuel' h) (children n)
      end
  end.

(** The full graph of a view: every node under a root. *)
Definition graph (h : gmap positive TreeNode) (roots : list positive) : list positive :=
  flat_map (walk (size h) h) roots.

(** Does the node, or one of its descendants, satisfy the filter? *)
Fixpoint matchesFilter (fuel : nat) (h : gmap positive TreeNode) (p : IData → bool)
    (a : positive) : bool :=
  match fuel with
  | O => false
  | S fuel' =>
      match h !! a with
      | None => false
      | Some n => p (data n) || existsb (matchesFilter fuel' h p) (children n)
      end
  end.

Definition visible (h : gmap positive TreeNode) (f : option (IData → bool)) (a : positive) : bool :=
  match f with
  | None => true
  | Some p => matchesFilter (size h) h p a
  end.

(** Stable insertion sort of a level under the comparator: [x] moves
    behind [y] only when [cmp x y > 0], so equal elements keep their order
    and the default comparator (constantly [0]) reorders nothing. *)
Fixpoint insertSorted (h : gmap positive TreeNode) (cmp : TreeNode → TreeNode → Z)
    (x : positive) (l : list positive) : list positive :=
  match l with
  | [] => [x]
  | y :: l' =>
      match h !! x, h !! y with
      | Some nx, Some ny =>
          if (cmp nx ny <=? 0)%Z then x :: y :: l' else y :: insertSorted h cmp x l'
      | _, _ => x :: y :: l'
      end
  end.

Definition sortLevel (h : gmap positive TreeNode) (cmp : TreeNode → TreeNode → Z)
    (l : list positive) : list positive :=
  foldr (insertSorted h cmp) [] l.

Fixpoint flatten (fuel : nat) (h : gmap positive TreeNode) (o : TreeViewOptions)
    (depth : nat) (a : positive) : list FlatNode :=
  match fuel with
  | O => []
  | S fuel' =>
      match h !! a with
      | None => []
      | Some n =>
          if visible h (filter_opt o) a then
            MkFlat a depth (negb (bool_decide (children n = [])))
            :: (if opened (options n)
                then flat_map (flatten fuel' h o (S depth)) (sortLevel h (sort o) (children n))
                else [])
          else []
      end
  end.

Definition rebuildIndex (h : gmap positive TreeNode) (roots : list positive) : gmap Id positive :=
  foldl (λ m a, match h !! a with Some n => <[id n := a]> m | None => m end)
        ∅ (graph h roots).

(** ** The state of one hook instance *)

(** A node argument of a handler: [TreeNode | string | number]. *)
Inductive NodeRef :=
| RefNode (a : positive)
| RefId (i : Id).

(** One invocation of a [getChildren] capability: the function and the
    [{ node }] argument it received. *)
Record FetchCall := MkFetchCall {
  fc_fn : nat;
  fc_node : NodeRef
}.

(** What awaiting the invocation yields: the fetched records, or the
    thrown value. *)
Inductive FetchResult :=
| Resolved (asyncData : list IData)
| Rejected (e : string).

Record State := MkState {
  nodes : gmap positive TreeNode;     (* the TreeNode objects *)
  treeView : TreeView;
  multipleSelect : bool;
  dropNodeId : option Id;             (* useState<string | number | null> *)
  isDragging : bool;
  dropType : DragContainer;           (* useState<string | boolean> *)
  renders : nat;                      (* dispatches of forceUpdate *)
  fetches : list FetchCall;           (* invocations of getChildren, oldest first *)
  consoleErrors : list string         (* console.error, oldest first *)
}.

Definition withNodes (f : gmap positive TreeNode → gmap positive TreeNode) (s : State) : State :=
  MkState (f (nodes s)) (treeView s) (multipleSelect s) (dropNodeId s) (isDragging s)
    (dropType s) (renders s) (fetches s) (consoleErrors s).

Definition withView (f : TreeView → TreeView) (s : State) : State :=
  MkState (nodes s) (f (treeView s)) (multipleSelect s) (dropNodeId s) (isDragging s)
    (dropType s) (renders s) (fetches s) (consoleErrors s).

(** A method call on the node object at [a]. *)
Definition onNode (a : positive) (f : TreeNode → TreeNode) : State → State :=
  withNodes (alter f a).

Definition isOpened (a : positive) (s : State) : bool :=
  default false (opened ∘ options <$> nodes s !! a).

(** Modelled from the spec: [TreeView.getNodeById] of [./node] (section
    4.2: a lookup in the identity index; a miss is a not-found value, never
    an exception). *)
Definition getNodeById (i : Id) (s : State) : option positive :=
  idIndex (treeView s) !! i.

(** Modelled from the spec: [TreeView.unselectAll] of [./node] (section
    4.2: walks the full graph, not just the visible part, clearing
    [selected]). *)
Definition unselectAll (s : State) : State :=
  withNodes (λ h, foldr (alter (node_setSelected false)) h
                    (graph h (enhancedData (treeView s)))) s.

(** Modelled from the spec: [TreeView.enhanceNodes] of [./node] (section
    4.2, [enhance(rebuildIndex)]: the flattened view is recomputed from
    the roots, pre-order, a node before its children, children only under
    a visible opened node, each level sorted; the index is rebuilt from the
    full graph when asked).  An omitted argument is [false]. *)
Definition enhanceNodes (rebuild : bool) (s : State) : State :=
  withView (λ v,
    let h := nodes s in
    MkTreeView (tv_id v) (tv_options v) (enhancedData v)
      (flat_map (flatten (size h) h (tv_options v) 0)
         (sortLevel h (sort (tv_options v)) (enhancedData v)))
      (if rebuild then rebuildIndex h (enhancedData v) else idIndex v)) s.

(** [useForceUpdate]: run the callback, if any, then dispatch. *)
Definition forceUpdate (callback : option (State → State)) (s : State) : State :=
  let s' := match callback with Some f => f s | None => s end in
  MkState (nodes s') (treeView s') (multipleSelect s') (dropNodeId s') (isDragging s')
    (dropType s') (S (renders s')) (fetches s') (consoleErrors s').

(** ** Wrapping raw records *)

Definition initiallyOpened (o : DefaultOpened) (i : Id) : bool :=
  match o with
  | DoUndefined => false
  | DoBool b => b
  | DoList l => match i with IdNum n => bool_decide (n ∈ l) | IdStr _ => false end
  end.

(** The node object made for record [d] found at position [pos] under
    [par]: its id is the record's id, or the position when the record has
    none; it is a root iff it has no parent and a leaf iff it has no
    children and no fetch capability. *)
Definition newNode (o : TreeViewOptions) (par : option positive) (pos : nat) (d : IData) : TreeNode :=
  let i := default (IdNum (Z.of_nat pos)) (d_id d) in
  MkNode i d []
    (MkOptions par (bool_decide (par = None))
       (bool_decide (d_children d = []) && negb (isFunction (d_getChildren d)))
       (initiallyOpened (defaultOpened o) i) false false DcUndefined).

Definition setKids (kids : list positive) (n : TreeNode) : TreeNode :=
  MkNode (id n) (data n) kids (options n).

(** Wrap the records of a sequence in order, each with its position,
    threading the store. *)
Fixpoint wrapEach (w : nat → IData → gmap positive TreeNode → gmap positive TreeNode * positive)
    (ds : list IData) (k : nat) (h : gmap positive TreeNode)
    : gmap positive TreeNode * list positive :=
  match ds with
  | [] => (h, [])
  | d :: ds' =>
      let '(h1, c) := w k d h in
      let '(h2, cs) := wrapEach w ds' (S k) h1 in
      (h2, c :: cs)
  end.

(** Wrap one record and, below it, the records of its children field.
    The new object gets a fresh address; its children are wrapped after it
    and linked to it. *)
Fixpoint wrap (o : TreeViewOptions) (par : option positive) (pos : nat) (d : IData)
    (h : gmap positive TreeNode) : gmap positive TreeNode * positive :=
  let a := fresh (dom h) in
  let '(h', kids) :=
    wrapEach (wrap o (Some a)) (d_children d) O (<[a := newNode o par pos d]> h) in
  (alter (setKids kids) a h', a).

Definition wrapAll (o : TreeViewOptions) (par : option positive) (ds : list IData) (k : nat)
    (h : gmap positive TreeNode) : gmap positive TreeNode * list positive :=
  wrapEach (wrap o par) ds k h.

Definition resolve (node : NodeRef) (s : State) : option positive :=
  match node with
  | RefNode a => Some a
  | RefId i => getNodeById i s
  end.

(** Modelled from the spec: [TreeView.staticEnhance] of [./node] (section
    4.2: wraps a sequence of raw records into node objects, linked to the
    parent that is named if one is, without touching the flattened view). *)
Definition staticEnhance (rawChildren : list IData) (par : option NodeRef) (s : State)
    : State * list positive :=
  let p := par ≫= (λ r, resolve r s) in
  let '(h, cs) := wrapAll (tv_options (treeView s)) p rawChildren O (nodes s) in
  (withNodes (λ _, h) s, cs).

(** Modelled from the spec: the [TreeView] constructor of [./node]
    (section 3: the node graph is built from the raw dataset; with
    [enhance: true] the view and the index are derived at once). *)
Definition newTreeView (i : string) (localData : list IData) (o : TreeViewOptions)
    : gmap positive TreeNode * TreeView :=
  let '(h, roots) := wrapAll o None localData O ∅ in
  let v := MkTreeView i o roots [] ∅ in
  if enhance o then
    (h, MkTreeView i o roots
          (flat_map (flatten (size h) h o 0) (sortLevel h (sort o) roots))
          (rebuildIndex h roots))
  else (h, v).

(** ** The handlers of [useTreeState]

    From here on the definitions follow [hooks.ts] line by line.  A
    handler that receives a [TreeNode] receives the address of an object
    of the store. *)

(** [Array.prototype.findIndex]; [None] stands for [-1]. *)
Fixpoint findIndex {A} (p : A → bool) (l : list A) : option nat :=
  match l with
  | [] => None
  | x :: l' => if p x then Some O else S <$> findIndex p l'
  end.

(** [l.splice(start, 0, ...items)]. *)
Definition splice {A} (start : nat) (items l : list A) : list A :=
  take start l ++ items ++ drop start l.

(** [x.id === y.id] on two node objects. *)
Definition sameId (h : gmap positive TreeNode) (x y : positive) : bool :=
  match h !! x, h !! y with
  | Some nx, Some ny => bool_decide (id nx = id ny)
  | _, _ => false
  end.

(** The flag of [setLoading] and [setSelected] is declared optional; the
    handlers are modelled on calls that pass it, as the spec's
    [setLoading(bool)] and [setSelected(bool)] of the node take it. *)
Definition setLoading (node : NodeRef) (loading : bool) (s : State) : State :=
  match node with
  | RefNode a => forceUpdate None (onNode a (node_setLoading loading) s)
  | RefId i =>
      match getNodeById i s with
      | Some foundNode => forceUpdate None (onNode foundNode (node_setLoading loading) s)
      | None => s
      end
  end.

Definition setSelected (node : NodeRef) (sel : bool) (s : State) : State :=
  let s := if negb (multipleSelect s) && sel then unselectAll s else s in
  match node with
  | RefNode a => forceUpdate None (onNode a (node_setSelected sel) s)
  | RefId i =>
      match getNodeById i s with
      | Some foundNode => forceUpdate None (onNode foundNode (node_setSelected sel) s)
      | None => s
      end
  end.

Definition setDragContainer (node : NodeRef) (dragContainer : DragContainer) (s : State) : State :=
  match node with
  | RefNode a => forceUpdate None (onNode a (node_setNodeDropContainer dragContainer) s)
  | RefId i =>
      match getNodeById i s with
      | Some foundNode =>
          forceUpdate None (onNode foundNode (node_setNodeDropContainer dragContainer) s)
      | None => s
      end
  end.

Definition setChildren (par : NodeRef) (cs : list positive) (type : option InsertChildType)
    (reset : bool) (s : State) : State :=
  match par with
  | RefNode p =>
      forceUpdate None (enhanceNodes false (onNode p (node_setNodeChildren cs type reset) s))
  | RefId i =>
      match getNodeById i s with
      | Some foundParent =>
          forceUpdate None
            (enhanceNodes false (onNode foundParent (node_setNodeChildren cs type reset) s))
      | None => s
      end
  end.

(** The three assignments [setSiblings] makes on a sibling it puts at
    root level. *)
Definition asRoot : TreeNode → TreeNode :=
  setOpt (λ o, MkOptions None true false (opened o) (selected o) (loading o) (dropContainer o)).

Definition startIndex (type : InsertSiblingType) (nodeIndex : nat) : nat :=
  match type with SiblingBefore => nodeIndex | SiblingAfter => S nodeIndex end.

Definition setSiblings (node : NodeRef) (siblings : list positive) (type : InsertSiblingType)
    (s : State) : State :=
  match resolve node s with
  | None => s
  | Some targetNode =>
      (* if (targetNode && targetNode.options.parent) *)
      let s1 :=
        match parent ∘ options <$> nodes s !! targetNode with
        | Some (Some p) =>
            let parentChildren := default [] (children <$> nodes s !! p) in
            match findIndex (λ child, sameId (nodes s) child targetNode) parentChildren with
            | Some nodeIndex =>
                forceUpdate None
                  (enhanceNodes true
                     (onNode p
                        (node_setNodeChildren
                           (splice (startIndex type nodeIndex) siblings parentChildren)
                           (Some ChildFirst) true) s))
            | None => s
            end
        | _ => s
        end in
      (* if (targetNode && targetNode.options.root) *)
      match root ∘ options <$> nodes s1 !! targetNode with
      | Some true =>
          match findIndex (λ child, sameId (nodes s1) targetNode child)
                  (enhancedData (treeView s1)) with
          | Some nodeIndex =>
              let s2 := withNodes (λ h, foldr (alter asRoot) h siblings) s1 in
              let s3 := withView (λ v,
                          MkTreeView (tv_id v) (tv_options v)
                            (splice (startIndex type nodeIndex) siblings (enhancedData v))
                            (flattenedView v) (idIndex v)) s2 in
              forceUpdate None (enhanceNodes true s3)
          | None => s1
          end
      | _ => s1
      end
  end.

Definition setRawChildren (par : NodeRef) (cs : list IData) (type : option InsertChildType)
    (reset : bool) (s : State) : State :=
  let '(s1, wrapped) := staticEnhance cs (Some par) s in
  setChildren par wrapped type reset s1.

Definition setNodeData (node : NodeRef) (dataToSet : IData) (s : State) : State :=
  match resolve node s with
  | None => s
  | Some currentNode =>
      forceUpdate (Some (enhanceNodes false)) (onNode currentNode (node_setData dataToSet) s)
  end.

Definition getNodeData (node : NodeRef) (s : State) : option IData :=
  resolve node s ≫= (λ currentNode, data <$> nodes s !! currentNode).

(** ** Asynchronous handlers

    An [async] function runs until it returns or reaches an [await] on a
    [getChildren] call.  [Susp A] is what the caller observes at that
    point: the state reached, and either the result or the pending call
    with the rest of the function, which resumes in whatever state the
    store is in when the call settles. *)
Inductive Susp (A : Type) : Type :=
| Done (s : State) (a : A)
| Await (s : State) (c : FetchCall) (k : FetchResult → State → Susp A).
Arguments Done {A} s a.
Arguments Await {A} s c k.

Definition Async (A : Type) : Type := State → Susp A.

Fixpoint bindSusp {A B} (x : Susp A) (f : A → Async B) : Susp B :=
  match x with
  | Done s a => f a s
  | Await s c k => Await s c (λ r s', bindSusp (k r s') f)
  end.

Definition ret {A} (a : A) : Async A := λ s, Done s a.
Definition bind {A B} (m : Async A) (f : A → Async B) : Async B :=
  λ s, bindSusp (m s) f.

(** The state in which a call stops for the first time. *)
Definition stateOf {A} (x : Susp A) : State :=
  match x with Done s _ => s | Await s _ _ => s end.

(** Running an asynchronous call to its end with nothing interleaved:
    every awaited invocation settles, as [env] decides, in the state in
    which it was made. *)
Fixpoint runSusp {A} (env : State → FetchCall → FetchResult) (x : Susp A) : State * A :=
  match x with
  | Done s a => (s, a)
  | Await s c k => runSusp env (k (env s c) s)
  end.

Definition run {A} (env : State → FetchCall → FetchResult) (m : Async A) (s : State) : State * A :=
  runSusp env (m s).

Definition invokeGetChildren (c : FetchCall) (s : State) : State :=
  MkState (nodes s) (treeView s) (multipleSelect s) (dropNodeId s) (isDragging s)
    (dropType s) (renders s) (fetches s ++ [c]) (consoleErrors s).

Definition consoleError (e : string) (s : State) : State :=
  MkState (nodes s) (treeView s) (multipleSelect s) (dropNodeId s) (isDragging s)
    (dropType s) (renders s) (fetches s) (consoleErrors s ++ [e]).

(** [currentNode.data.getChildren], when it passes
    [data.getChildren && isFunction(data.getChildren)]. *)
Definition fetchCapability (a : positive) (s : State) : option nat :=
  match d_getChildren ∘ data <$> nodes s !! a with
  | Some g =>
      if truthyGc g && isFunction g
      then match g with GcFunction f => Some f | _ => None end
      else None
  | None => None
  end.

(** The rest of [setOpen] after [await currentNode.data.getChildren({ node })]:
    the body of the [try] on a result, the [catch] on a failure, then the
    trailing [forceUpdate]. *)
Definition afterGetChildren (node : NodeRef) (currentNode : positive)
    (r : FetchResult) (s : State) : Susp unit :=
  let s :=
    match r with
    | Resolved asyncData =>
        let s := setLoading node false s in
        let s := onNode currentNode (node_setOpened true) s in
        setRawChildren node asyncData (Some ChildLast) true s
    | Rejected e => consoleError e s
    end in
  Done (forceUpdate (Some (enhanceNodes false)) s) tt.

Definition setOpen (node : NodeRef) : Async unit := λ s,
  match resolve node s with
  | None => Done s tt
  | Some currentNode =>
      match fetchCapability currentNode s, isOpened currentNode s with
      | Some f, false =>
          let s := setLoading (RefNode currentNode) true s in
          let c := MkFetchCall f node in
          Await (invokeGetChildren c s) c (afterGetChildren node currentNode)
      | _, _ =>
          let s := onNode currentNode (node_setOpened (negb (isOpened currentNode s))) s in
          let s := enhanceNodes false s in
          Done (forceUpdate (Some (enhanceNodes false)) s) tt
      end
  end.

(** [String.prototype.split] on a one-character separator. *)
Fixpoint split (sep : ascii) (s : string) : list string :=
  match s with
  | EmptyString => [EmptyString]
  | String c s' =>
      if Ascii.eqb c sep then EmptyString :: split sep s'
      else match split sep s' with
           | [] => [String c EmptyString]
           | w :: ws => String c w :: ws
           end
  end.

(** [path.split('/').reduce(async (previousPromise, currentPath) => { await
    previousPromise; await setOpen(currentPath) }, Promise.resolve())]. *)
Definition setOpenByPath (path : string) : Async unit :=
  foldl (λ previousPromise currentPath,
           bind previousPromise (λ _, setOpen (RefId (IdStr currentPath))))
        (ret tt) (split "/"%char path).

(** ** Drag and drop *)

Definition setDragging (b : bool) (s : State) : State :=
  MkState (nodes s) (treeView s) (multipleSelect s) (dropNodeId s) b
    (dropType s) (renders s) (fetches s) (consoleErrors s).

Definition setDropNodeId (d : option Id) (s : State) : State :=
  MkState (nodes s) (treeView s) (multipleSelect s) d (isDragging s)
    (dropType s) (renders s) (fetches s) (consoleErrors s).

Definition setDropType (t : DragContainer) (s : State) : State :=
  MkState (nodes s) (treeView s) (multipleSelect s) (dropNodeId s) (isDragging s)
    t (renders s) (fetches s) (consoleErrors s).

Definition handleDragStart (s : State) : State := setDragging true s.

Definition handleDragEnter (node : positive) (type : DragContainer) (s : State) : State :=
  let s1 := setDragContainer (RefNode node) type s in
  setDropType type (setDropNodeId (id <$> nodes s !! node) s1).

Definition handleDragLeave (node : positive) (s : State) : State :=
  if bool_decide ((id <$> nodes s !! node) ≠ dropNodeId s)
  then setDragContainer (RefNode node) (DcBool false) s
  else s.

(** What a handler call comes to: it returns, or a [TypeError] escapes
    it (a method called on [null]); either way with the state it left. *)
Inductive Outcome :=
| Returned (s : State)
| Threw (s : State).

(** The assignments of the ['children'] branch of [handleDrop] on the
    source node. *)
Definition asChildOf (target : option positive) : TreeNode → TreeNode :=
  setOpt (λ o, MkOptions target false true (opened o) (selected o) (loading o) (dropContainer o)).

Definition handleDrop (sourceNode : positive) (s : State) : Outcome :=
  let dropNode := dropNodeId s in
  let dropTy := dropType s in
  let s := setDragging false s in
  (* if (dropNodeId) setDragContainer(dropNodeId, false) *)
  let s := match dropNode with
           | Some d => if truthyId d then setDragContainer (RefId d) (DcBool false) s else s
           | None => s
           end in
  match dropNode, nodes s !! sourceNode with
  | Some d, Some src =>
      (* if (dropNodeId && dropNodeId !== sourceNode.id) *)
      if truthyId d && bool_decide (d ≠ id src) then
        let targetNode := getNodeById d s in
        let s :=
          match parent (options src) with
          | Some p => onNode p (node_removeChild (nodes s) (id src)) s
          | None =>
              withView (λ v,
                MkTreeView (tv_id v) (tv_options v)
                  (filter (λ child, (id <$> nodes s !! child) ≠ Some (id src)) (enhancedData v))
                  (flattenedView v) (idIndex v)) s
          end in
        if bool_decide (dropTy = DcStr "children") then
          let s := onNode sourceNode (asChildOf targetNode) s in
          match targetNode with
          | None => Threw s
          | Some t =>
              let s := onNode t (node_setNodeChildren [sourceNode] (Some ChildLast) false) s in
              Returned (setDropNodeId None (forceUpdate None (enhanceNodes true s)))
          end
        else if bool_decide (dropTy = DcStr "after") || bool_decide (dropTy = DcStr "before") then
          let type := if bool_decide (dropTy = DcStr "before")
                      then SiblingBefore else SiblingAfter in
          let s := match targetNode with
                   | Some t => setSiblings (RefNode t) [sourceNode] type s
                   | None => s   (* getNodeById(null) finds nothing *)
                   end in
          Returned (setDropNodeId None s)
        else Returned (setDropNodeId None s)
      else Returned s
  | _, _ => Returned s
  end.

(** ** The raw dataset of the hook *)

(** [data: any]: one record or an array of records. *)
Inductive RawData :=
| OneRecord (r : IData)
| Records (l : list IData).

(** [Array.isArray(data) ? data : [data]]. *)
Definition formattedData (d : RawData) : list IData :=
  match d with
  | OneRecord r => [r]
  | Records l => l
  end.

Section UseTreeState.
(** [hash] of the [hash-sum] package. *)
Variable hash : list IData → string.

(** The effect of [useTreeState]: the array it passes to
    [setLocalData], if it calls it. *)
Definition useEffect (d : RawData) (localData : list IData) : option (list IData) :=
  let hashFormattedData := hash (formattedData d) in
  let hashLocalData := hash localData in
  if negb (String.eqb hashFormattedData hashLocalData)
  then Some (formattedData d)
  else None.

(** [localData] on the next render. *)
Definition nextLocalData (d : RawData) (localData : list IData) : list IData :=
  default localData (useEffect d localData).

(** The [TreeView] the hook holds once the effect has run on its first
    render ([localData] starts as the empty array) and the component
    has rendered again: [useMemo] builds it from [localData]. *)
Definition mountedTreeView (i : string) (d : RawData) (o : TreeViewOptions)
    : gmap positive TreeNode * TreeView :=
  newTreeView i (nextLocalData d []) o.
End UseTreeState.

(** The state of a hook instance once mounted on [localData]: the tree
    just built, nothing dragged, nothing rendered again, nothing fetched. *)
Definition initialState (i : string) (localData : list IData) (o : TreeViewOptions)
    (multi : bool) : State :=
  let '(h, v) := newTreeView i localData o in
  MkState h v multi None false (DcBool false) O [] [].

(** ** Observations on a state *)

Definition isSelected (a : positive) (s : State) : bool :=
  default false (selected ∘ options <$> nodes s !! a).
Definition isLoading (a : positive) (s : State) : bool :=
  default false (loading ∘ options <$> nodes s !! a).
Definition childrenOf (a : positive) (s : State) : list positive :=
  default [] (children <$> nodes s !! a).

(** A node object with its drop indicator blanked: what remains is its
    id, record, children, parent link and every other flag. *)
Definition sansDropContainer : TreeNode → TreeNode :=
  node_setNodeDropContainer DcUndefined.

(** The nodes of the whole graph of the view, and those of them that are
    selected, each counted once. *)
Definition graphOf (s : State) : list positive :=
  graph (nodes s) (enhancedData (treeView s)).

Definition selectedNodes (s : State) : list positive :=
  filter (λ a, isSelected a s = true) (remove_dups (graphOf s)).

(** The nodes that can be reached from a root through child lists. *)
Inductive reachable (h : gmap positive TreeNode) (roots : list positive) : positive → Prop :=
| reach_root a :
    a ∈ roots → is_Some (h !! a) → reachable h roots a
| reach_child a n c :
    reachable h roots a → h !! a = Some n → c ∈ children n → is_Some (h !! c) →
    reachable h roots c.

(** [chain h x l y]: [x :: l] is a path of child links that ends in [y]. *)
Fixpoint chain (h : gmap positive TreeNode) (x : positive) (l : list positive)
    (y : positive) : Prop :=
  match l with
  | [] => x = y
  | z :: l' => (∃ n, h !! x = Some n ∧ z ∈ children n) ∧ chain h z l' y
  end.

(** No two distinct nodes of the graph are selected. *)
Definition singleSelect (s : State) : Prop :=
  ∀ a b, a ∈ graphOf s → b ∈ graphOf s →
         isSelected a s = true → isSelected b s = true → a = b.

(** A sequence of [setSelected] calls, first to last. *)
Definition setSelectedAll (calls : list (NodeRef * bool)) (s : State) : State :=
  foldl (λ st c, setSelected c.1 c.2 st) s calls.

(** [h'] keeps every object of [h] as it is. *)
Definition extends (h h' : gmap positive TreeNode) : Prop :=
  ∀ b n, h !! b = Some n → h' !! b = Some n.

(** [c] is a new object of [h'], not one of [h], that wraps record [d]
    under parent [par]. *)
Definition wraps (par : option positive) (h h' : gmap positive TreeNode)
    (c : positive) (d : IData) : Prop :=
  h !! c = None ∧ ∃ n, h' !! c = Some n ∧ data n = d ∧ parent (options n) = par.

Definition wrapOk (par : option positive)
    (w : nat → IData → gmap positive TreeNode → gmap positive TreeNode * positive)
    (d : IData) : Prop :=
  ∀ k h, extends h (w k d h).1 ∧ wraps par h (w k d h).1 (w k d h).2 d.

(** [Array.prototype.join], and whether a string holds a character. *)
Fixpoint join (sep : ascii) (l : list string) : string :=
  match l with
  | [] => EmptyString
  | [w] => w
  | w :: ws => String.append w (String sep (join sep ws))
  end.

Fixpoint contains (sep : ascii) (s : string) : bool :=
  match s with
  | EmptyString => false
  | String c s' => Ascii.eqb c sep || contains sep s'
  end.

(** ** Selecting by path *)

(** Truthiness of a path segment: the empty string is falsy. *)
Definition truthyStr (w : string) : bool := negb (String.eqb w "").

(** [l.slice(0, -1)]: all but the last element. *)
Definition sliceInit {A} (l : list A) : list A := take (List.length l - 1) l.

(** What [setSelectedByPath] does once [setOpenByPath] has settled: with
    [all], [forEach] segment that is truthy, [setSelected(segment, true)];
    otherwise the same for the last segment alone. *)
Definition selectByPath (path : string) (all : bool) (s : State) : State :=
  if all then
    foldl (λ st currentPath,
             if truthyStr currentPath
             then setSelected (RefId (IdStr currentPath)) true st
             else st)
          s (split "/"%char path)
  else
    match reverse (split "/"%char path) with
    | lastId :: _ =>
        if truthyStr lastId then setSelected (RefId (IdStr lastId)) true s else s
    | [] => s
    end.

Definition setSelectedByPath (path : string) (all : bool) : Async unit :=
  bind (setOpenByPath (join "/"%char (sliceInit (split "/"%char path))))
       (λ _ s, Done (selectByPath path all s) tt).

(** ** Detaching *)

(** [l.filter((child) => child.id !== c)] on node objects of the store. *)
Definition withoutId (h : gmap positive TreeNode) (c : Id) (l : list positive)
    : list positive :=
  filter (λ a, (id <$> h !! a) ≠ Some c) l.

(** The drop indicator of a node object. *)
Definition indicatorOf (a : positive) (s : State) : option DragContainer :=
  dropContainer ∘ options <$> nodes s !! a.

(** ** Concrete trees

    Small instances on which the statements below are evaluated. *)
Module Sample.
Definition record (i : Z) (cs : list IData) (g : GetChildren) : IData :=
  MkData (Some (IdNum i)) cs g EmptyString.

Definition opts : TreeViewOptions :=
  MkTreeViewOptions "id" "children" (DoBool false) None true (λ _ _, 0%Z).

(** The hook state right after mounting [d], single-select. *)
Definition mount (d : list IData) : State := initialState "tree" d opts false.

(** [[{id: 1, getChildren}]]: one lazy root. *)
Definition lazy : State := mount [record 1 [] (GcFunction O)].

(** [[{id: 1, children: [{id: 2}, {id: 3}]}]]. *)
Definition family : State :=
  mount [record 1 [record 2 [] GcAbsent; record 3 [] GcAbsent] GcAbsent].

(** [family] with node 2 selected. *)
Definition familySelected : State := setSelected (RefId (IdNum 2)) true family.

(** [[{id: 1}, {id: 2}]] and two detached nodes, wrapped from
    [[{id: 8}, {id: 9}]] under no parent. *)
Definition twoRoots : State :=
  (staticEnhance [record 8 [] GcAbsent; record 9 [] GcAbsent] None
     (mount [record 1 [] GcAbsent; record 2 [] GcAbsent])).1.

(** [family] while node 2 is dragged over itself. *)
Definition draggingOverSelf : State :=
  handleDragEnter 2 (DcStr "children") (handleDragStart family).

Definition fails : State → FetchCall → FetchResult := λ _ _, Rejected "boom".
Definition yields (l : list IData) : State → FetchCall → FetchResult := λ _ _, Resolved l.
End Sample.

(** Trees whose ids are strings, as path addressing needs them. *)
Module Scenario.
Definition named (i : string) (cs : list IData) (g : GetChildren) : IData :=
  MkData (Some (IdStr i)) cs g EmptyString.

(** [[{id: 'a', children: [{id: 'b'}, {id: 'c'}]}, {id: 'd'}, {id: 'e'}]]:
    objects 1 (a), 2 (b), 3 (c), 4 (d), 5 (e). *)
Definition forest : State :=
  initialState "tree"
    [named "a" [named "b" [] GcAbsent; named "c" [] GcAbsent] GcAbsent;
     named "d" [] GcAbsent; named "e" [] GcAbsent]
    Sample.opts false.

(** The same forest with multi-select enabled and [b] selected. *)
Definition forestMulti : State :=
  setSelected (RefId (IdStr "b")) true
    (initialState "tree"
       [named "a" [named "b" [] GcAbsent; named "c" [] GcAbsent] GcAbsent;
        named "d" [] GcAbsent; named "e" [] GcAbsent]
       Sample.opts true).

(** [[{id: 'a', getChildren}]]. *)
Definition lazyNamed : State :=
  initialState "tree" [named "a" [] (GcFunction O)] Sample.opts false.

(** [forest] while root [e] is dragged over root [a], to drop before it. *)
Definition draggingBefore : State :=
  handleDragEnter 1 (DcStr "before") (handleDragStart forest).


(** [forest] with a drop target recorded that the index does not know. *)
Definition draggingNowhere (type : string) : State :=
  setDropType (DcStr type) (setDropNodeId (Some (IdStr "ghost")) forest).


End Scenario.

(** * Properties *)

(** ** Basic facts about the state *)

Lemma run_bind {A B} env (m : Async A) (f : A → Async B) s :
  run env (bind m f) s = run env (f (run env m s).2) (run env m s).1.
Proof.
  unfold run, bind. induction (m s) as [s' a|s' c k IH]; simpl; [done|].
  apply IH.
Qed.

Lemma run_ret {A} env (a : A) s : run env (ret a) s = (s, a).
Proof. reflexivity. Qed.

Lemma runSusp_Await {A} env s c (k : FetchResult → State → Susp A) :
  runSusp env (Await s c k) = runSusp env (k (env s c) s).
Proof. reflexivity. Qed.

Lemma run_foldl_setOpen env (segs : list string) (m : Async unit) s :
  (run env (foldl (λ previousPromise currentPath,
                     bind previousPromise (λ _, setOpen (RefId (IdStr currentPath))))
                  m segs) s).1
  = foldl (λ st seg, (run env (setOpen (RefId (IdStr seg))) st).1) (run env m s).1 segs.
Proof.
  revert m. induction segs as [|seg segs IH]; intros m; simpl; [done|].
  rewrite IH. by rewrite run_bind.
Qed.

(** [split] is [String.prototype.split]: the segments, joined by the
    separator, give the string back, and no segment holds the separator. *)
Lemma split_nonempty sep s : split sep s ≠ [].
Proof.
  destruct s as [|c s]; simpl; [done|].
  destruct (Ascii.eqb c sep); [done|]. by destruct (split sep s).
Qed.

Lemma join_split sep s : join sep (split sep s) = s.
Proof.
  induction s as [|c s IH]; simpl; [done|].
  destruct (Ascii.eqb c sep) eqn:E.
  - apply Ascii.eqb_eq in E as ->.
    pose proof (split_nonempty sep s).
    destruct (split sep s) as [|w ws]; [done|]. simpl in *. by rewrite IH.
  - destruct (split sep s) as [|w ws] eqn:Es.
    + by destruct (split_nonempty sep s).
    + destruct ws; simpl in *; by rewrite <- IH.
Qed.

Lemma split_segments sep s : Forall (λ w, contains sep w = false) (split sep s).
Proof.
  induction s as [|c s IH]; simpl; [by repeat constructor|].
  destruct (Ascii.eqb c sep) eqn:E.
  - by constructor.
  - destruct (split sep s) as [|w ws]; [repeat constructor; simpl; by rewrite E|].
    inversion IH; subst. constructor; [simpl; by rewrite E|done].
Qed.

(** ** Path opening *)

(** C6: [setOpenByPath] splits the path on ['/'] and opens the segments
    one after the other, first to last: run to its end, it leaves the
    state that running [setOpen] to its end (any awaited fetch included) on
    each segment in turn leaves, whatever the fetches return. *)
Theorem setOpenByPath_sequential (env : State → FetchCall → FetchResult)
    (path : string) (s : State) :
  (run env (setOpenByPath path) s).1
  = foldl (λ st seg, (run env (setOpen (RefId (IdStr seg))) st).1) s (split "/" path)
  ∧ join "/" (split "/" path) = path
  ∧ Forall (λ seg, contains "/" seg = false) (split "/" path).
Proof.
  split; [|split].
  - unfold setOpenByPath. by rewrite run_foldl_setOpen.
  - apply join_split.
  - apply split_segments.
Qed.

(** ** The raw dataset *)

(** C10: a single record and the one-element array holding it are the
    same dataset to the hook: both are normalised to that array, the
    effect makes the same decision on them, keyed on the hash of the
    normalised array, and the tree built is the same. *)
Theorem single_record_as_singleton (hash : list IData → string) (r : IData)
    (localData : list IData) (i : string) (o : TreeViewOptions) :
  formattedData (OneRecord r) = [r]
  ∧ formattedData (Records [r]) = [r]
  ∧ useEffect hash (OneRecord r) localData = useEffect hash (Records [r]) localData
  ∧ nextLocalData hash (OneRecord r) localData = nextLocalData hash (Records [r]) localData
  ∧ mountedTreeView hash i (OneRecord r) o = mountedTreeView hash i (Records [r]) o
  ∧ (is_Some (useEffect hash (OneRecord r) localData) ↔ hash [r] ≠ hash localData).
Proof.
  repeat split; try done.
  - unfold useEffect; simpl. intros [x Hx] Heq. rewrite Heq, String.eqb_refl in Hx. done.
  - unfold useEffect; simpl. intros Hne.
    destruct (String.eqb (hash [r]) (hash localData)) eqn:E; simpl; [|by eexists].
    by apply String.eqb_eq in E.
Qed.

(** ** Wrapping raw records *)

Lemma IData_ind' (P : IData → Prop) :
  (∀ i cs g p, Forall P cs → P (MkData i cs g p)) → ∀ d, P d.
Proof.
  intros H. fix IH 1. intros [i cs g p]. apply H.
  induction cs as [|c cs IHcs]; constructor; [apply IH | apply IHcs].
Qed.

Lemma extends_refl h : extends h h.
Proof. by intros b n. Qed.

Lemma extends_trans h1 h2 h3 : extends h1 h2 → extends h2 h3 → extends h1 h3.
Proof. intros H12 H23 b n Hb. by apply H23, H12. Qed.

Lemma extends_None h h' c : extends h h' → h' !! c = None → h !! c = None.
Proof.
  intros He Hc. destruct (h !! c) as [n|] eqn:E; [|done].
  apply He in E. congruence.
Qed.

Lemma wraps_mono par h0 h h' h'' c d :
  extends h0 h → extends h' h'' → wraps par h h' c d → wraps par h0 h'' c d.
Proof.
  intros H0 H2 [Hc (n & Hn & Hd & Hp)]. split; [by eapply extends_None|].
  exists n. split; [by apply H2|done].
Qed.

Lemma wrapEach_ok par w ds :
  Forall (wrapOk par w) ds →
  ∀ k h, extends h (wrapEach w ds k h).1
         ∧ Forall2 (wraps par h (wrapEach w ds k h).1) (wrapEach w ds k h).2 ds.
Proof.
  induction 1 as [|d ds Hd _ IH]; intros k h; simpl.
  - split; [apply extends_refl|constructor].
  - destruct (Hd k h) as [He Hw]. destruct (w k d h) as [h1 c]; simpl in *.
    destruct (IH (S k) h1) as [He' Hw']. destruct (wrapEach w ds (S k) h1) as [h2 cs]; simpl in *.
    split; [by eapply extends_trans|]. constructor.
    + eapply wraps_mono; [apply extends_refl|exact He'|exact Hw].
    + eapply Forall2_impl; [exact Hw'|]. intros c' d' Hc'.
      eapply wraps_mono; [exact He|apply extends_refl|exact Hc'].
Qed.

Lemma wrap_ok o d : ∀ par, wrapOk par (wrap o par) d.
Proof.
  induction d as [i cs g p IH] using IData_ind'. intros par k h.
  assert (Hfresh : h !! fresh (dom h) = None) by apply not_elem_of_dom, is_fresh.
  simpl. set (a := fresh (dom h)) in *. set (new := newNode o par k _).
  assert (Hk : Forall (wrapOk (Some a) (wrap o (Some a))) cs).
  { eapply Forall_impl; [exact IH|]. intros d Hd. apply Hd. }
  destruct (wrapEach_ok _ _ _ Hk O (<[a:=new]> h)) as [He _].
  destruct (wrapEach (wrap o (Some a)) cs O (<[a:=new]> h)) as [h' kids]; simpl in *.
  split.
  - intros b n Hb. assert (b ≠ a) by congruence.
    rewrite lookup_alter_ne by done. apply He. by rewrite lookup_insert_ne.
  - split; [done|]. exists (setKids kids new).
    rewrite lookup_alter_eq, (He a new) by apply lookup_insert_eq. done.
Qed.

Lemma wrapAll_ok o par ds k h :
  extends h (wrapAll o par ds k h).1
  ∧ Forall2 (wraps par h (wrapAll o par ds k h).1) (wrapAll o par ds k h).2 ds.
Proof.
  apply wrapEach_ok, Forall_forall. intros d _. apply wrap_ok.
Qed.

(** ** How the handlers act on the parts of the state *)

Lemma fetchCapability_alter a b f s s' :
  nodes s' = alter f a (nodes s) → (∀ n, data (f n) = data n) →
  fetchCapability b s' = fetchCapability b s.
Proof.
  intros Hn Hf. unfold fetchCapability. rewrite Hn, lookup_alter.
  destruct (decide (a = b)) as [->|?], (nodes s !! b) as [x|]; simpl; by rewrite ?Hf.
Qed.

Lemma isOpened_alter a b f s s' :
  nodes s' = alter f a (nodes s) → (∀ n, opened (options (f n)) = opened (options n)) →
  isOpened b s' = isOpened b s.
Proof.
  intros Hn Hf. unfold isOpened. rewrite Hn, lookup_alter.
  destruct (decide (a = b)) as [->|?], (nodes s !! b) as [x|]; simpl; by rewrite ?Hf.
Qed.

Lemma childrenOf_alter a b f s s' :
  nodes s' = alter f a (nodes s) → (∀ n, children (f n) = children n) →
  childrenOf b s' = childrenOf b s.
Proof.
  intros Hn Hf. unfold childrenOf. rewrite Hn, lookup_alter.
  destruct (decide (a = b)) as [->|?], (nodes s !! b) as [x|]; simpl; by rewrite ?Hf.
Qed.

Lemma fetchCapability_is_Some a f s : fetchCapability a s = Some f → is_Some (nodes s !! a).
Proof. unfold fetchCapability. destruct (nodes s !! a); [by eexists|done]. Qed.

(** The state in which [setOpen] awaits the fetch. *)
Lemma setOpen_fetches r a f s :
  resolve r s = Some a → fetchCapability a s = Some f → isOpened a s = false →
  setOpen r s
  = Await (invokeGetChildren (MkFetchCall f r) (setLoading (RefNode a) true s))
      (MkFetchCall f r) (afterGetChildren r a).
Proof. intros Hr Hf Ho. unfold setOpen. by rewrite Hr, Hf, Ho. Qed.

(** Awaiting the fetch changes the loading flag of the node, the fetch
    log and the render count, and nothing the guard of [setOpen] reads. *)
Lemma loading_state r a f s :
  let s1 := invokeGetChildren (MkFetchCall f r) (setLoading (RefNode a) true s) in
  nodes s1 = alter (node_setLoading true) a (nodes s)
  ∧ treeView s1 = treeView s
  ∧ resolve r s1 = resolve r s
  ∧ fetchCapability a s1 = fetchCapability a s
  ∧ isOpened a s1 = isOpened a s
  ∧ childrenOf a s1 = childrenOf a s
  ∧ fetches s1 = fetches s ++ [MkFetchCall f r]
  ∧ consoleErrors s1 = consoleErrors s.
Proof.
  simpl. repeat split.
  - apply (fetchCapability_alter a a (node_setLoading true)); [reflexivity|done].
  - apply (isOpened_alter a a (node_setLoading true)); [reflexivity|done].
  - apply (childrenOf_alter a a (node_setLoading true)); [reflexivity|done].
Qed.

Lemma isLoading_loading_state r a f s :
  is_Some (nodes s !! a) →
  isLoading a (invokeGetChildren (MkFetchCall f r) (setLoading (RefNode a) true s)) = true.
Proof.
  intros [n Hn]. unfold isLoading. simpl. by rewrite lookup_alter_eq, Hn.
Qed.

(** ** Re-entrancy of [setOpen] *)

(** C1, as the code has it: the guard of [setOpen] reads the fetch
    capability and the opened flag, not the loading flag.  A second
    [setOpen] on a closed node whose fetch is outstanding awaits a fetch
    of its own: it invokes the capability again, and two back-to-back
    calls make two invocations. *)
Theorem setOpen_while_loading_fetches_again (r : NodeRef) (a : positive) (f : nat) (s : State) :
  resolve r s = Some a → fetchCapability a s = Some f → isOpened a s = false →
  ∃ s1 s2,
    setOpen r s = Await s1 (MkFetchCall f r) (afterGetChildren r a)
    ∧ isLoading a s1 = true ∧ isOpened a s1 = false
    ∧ fetches s1 = fetches s ++ [MkFetchCall f r]
    ∧ setOpen r s1 = Await s2 (MkFetchCall f r) (afterGetChildren r a)
    ∧ fetches s2 = fetches s ++ [MkFetchCall f r; MkFetchCall f r].
Proof.
  intros Hr Hf Ho.
  pose proof (loading_state r a f s) as (Hn1 & Hv1 & Hr1 & Hf1 & Ho1 & _ & Hl1 & _).
  set (s1 := invokeGetChildren (MkFetchCall f r) (setLoading (RefNode a) true s)) in *.
  pose proof (loading_state r a f s1) as (_ & _ & _ & _ & _ & _ & Hl2 & _).
  eexists s1, _. split; [by apply setOpen_fetches|].
  split; [by eapply isLoading_loading_state, fetchCapability_is_Some|].
  split; [congruence|]. split; [done|].
  split; [apply setOpen_fetches; congruence|].
  rewrite Hl2, Hl1, <- app_assoc. done.
Qed.

Lemma setOpen_while_loading_fetches_again_witness :
  ∃ s1 s2,
    setOpen (RefId (IdNum 1)) Sample.lazy
    = Await s1 (MkFetchCall 0 (RefId (IdNum 1))) (afterGetChildren (RefId (IdNum 1)) 1)
    ∧ isLoading 1 s1 = true ∧ isOpened 1 s1 = false
    ∧ fetches s1 = fetches Sample.lazy ++ [MkFetchCall 0 (RefId (IdNum 1))]
    ∧ setOpen (RefId (IdNum 1)) s1
      = Await s2 (MkFetchCall 0 (RefId (IdNum 1))) (afterGetChildren (RefId (IdNum 1)) 1)
    ∧ fetches s2 = fetches Sample.lazy
                   ++ [MkFetchCall 0 (RefId (IdNum 1)); MkFetchCall 0 (RefId (IdNum 1))].
Proof.
  apply (setOpen_while_loading_fetches_again (RefId (IdNum 1)) 1 0 Sample.lazy);
    vm_compute; reflexivity.
Defined.

(** C1, as stated, fails: on the lazy root, the second of two
    back-to-back [setOpen] calls is not a no-op, and the capability has
    been invoked twice, not once. *)
Lemma second_setOpen_not_noop :
  let s1 := stateOf (setOpen (RefId (IdNum 1)) Sample.lazy) in
  let s2 := stateOf (setOpen (RefId (IdNum 1)) s1) in
  isLoading 1 s1 = true ∧ isOpened 1 s1 = false
  ∧ List.length (fetches s1) = 1%nat
  ∧ s2 ≠ s1
  ∧ List.length (fetches s2) = 2%nat
  ∧ ¬ (List.length (fetches s2) = 1%nat).
Proof.
  vm_compute. repeat split; done.
Qed.

(** ** Failure of the fetch *)

(** What the [catch] of [setOpen] leaves: the error is logged, nothing is
    raised, and the store is the one the failure found. *)
Lemma afterGetChildren_rejected r a e s :
  ∃ s', afterGetChildren r a (Rejected e) s = Done s' tt
        ∧ nodes s' = nodes s
        ∧ consoleErrors s' = consoleErrors s ++ [e]
        ∧ fetches s' = fetches s.
Proof. eexists. split; [reflexivity|]. done. Qed.

(** C2, on the lazy root whose fetch fails: the error reaches the
    console, the node stays closed with its children as they were, the
    capability was invoked once, and the loading flag is still set: the
    [catch] does not undo the [setLoading(currentNode, true)] made before
    the [try]. *)
Theorem failed_fetch_leaves_loading :
  let s' := (run Sample.fails (setOpen (RefId (IdNum 1))) Sample.lazy).1 in
  consoleErrors s' = ["boom"%string]
  ∧ isOpened 1 s' = false
  ∧ childrenOf 1 s' = childrenOf 1 Sample.lazy
  ∧ List.length (fetches s') = 1%nat
  ∧ isLoading 1 Sample.lazy = false
  ∧ isLoading 1 s' = true.
Proof. vm_compute. repeat split; done. Qed.

(** ** Ids that do not resolve *)

Lemma sansDropContainer_alter (g : TreeNode → TreeNode) b (h : gmap positive TreeNode) :
  (∀ n, sansDropContainer (g n) = sansDropContainer n) →
  sansDropContainer <$> alter g b h = sansDropContainer <$> h.
Proof.
  intros Hg. apply map_eq. intros c. rewrite !lookup_fmap, lookup_alter.
  destruct (decide (b = c)) as [->|]; [|done].
  destruct (h !! c); simpl; by rewrite ?Hg.
Qed.

Lemma setRawChildren_unresolved i cs t r s :
  getNodeById i s = None →
  setRawChildren (RefId i) cs t r s
  = withNodes (λ _, (wrapAll (tv_options (treeView s)) None cs O (nodes s)).1) s.
Proof.
  intros Hi. unfold setRawChildren, staticEnhance. simpl. rewrite Hi. simpl.
  destruct (wrapAll _ _ _ _ _) as [h ws]. unfold setChildren, getNodeById in *.
  simpl. by rewrite Hi.
Qed.

(** C4, as the code has it: with an id that [getNodeById] does not
    resolve, every handler returns the state it was given ([setOpen]
    returns at once; [setRawChildren] only wraps the records into objects
    nothing refers to), except [setSelected] with [selected = true] under
    single-select, which has already run [unselectAll] when it looks the
    id up and so leaves every node of the graph unselected. *)
Theorem unresolved_id_is_noop (i : Id) (s : State) :
  getNodeById i s = None →
  (∀ b, setLoading (RefId i) b s = s)
  ∧ (∀ d, setDragContainer (RefId i) d s = s)
  ∧ (∀ cs t r, setChildren (RefId i) cs t r s = s)
  ∧ (∀ sib t, setSiblings (RefId i) sib t s = s)
  ∧ (∀ d, setNodeData (RefId i) d s = s)
  ∧ getNodeData (RefId i) s = None
  ∧ setOpen (RefId i) s = Done s tt
  ∧ (∀ cs t r, treeView (setRawChildren (RefId i) cs t r s) = treeView s
               ∧ renders (setRawChildren (RefId i) cs t r s) = renders s
               ∧ extends (nodes s) (nodes (setRawChildren (RefId i) cs t r s)))
  ∧ setSelected (RefId i) false s = s
  ∧ setSelected (RefId i) true s = if multipleSelect s then s else unselectAll s.
Proof.
  intros Hi.
  assert (Hr : resolve (RefId i) s = None) by done.
  repeat split; intros; unfold setLoading, setDragContainer, setChildren, setSiblings,
    setNodeData, getNodeData, setOpen, setSelected; rewrite ?Hi, ?Hr; try done.
  - by rewrite setRawChildren_unresolved.
  - by rewrite setRawChildren_unresolved.
  - rewrite setRawChildren_unresolved by done. simpl. apply wrapAll_ok.
  - rewrite andb_false_r. by rewrite Hi.
  - rewrite andb_true_r. destruct (multipleSelect s); simpl; [by rewrite Hi|].
    change (getNodeById i (unselectAll s)) with (getNodeById i s). by rewrite Hi.
Qed.

Lemma unresolved_id_is_noop_witness :
  getNodeById (IdStr "ghost") Sample.familySelected = None
  ∧ setLoading (RefId (IdStr "ghost")) true Sample.familySelected = Sample.familySelected
  ∧ setSelected (RefId (IdStr "ghost")) true Sample.familySelected
    = unselectAll Sample.familySelected.
Proof.
  assert (H : getNodeById (IdStr "ghost") Sample.familySelected = None)
    by (vm_compute; reflexivity).
  destruct (unresolved_id_is_noop _ _ H) as (Hl & _ & _ & _ & _ & _ & _ & _ & _ & Hs).
  split; [exact H|]. split; [apply Hl|]. exact Hs.
Defined.

(** C4, as stated, fails for [setSelected]: under single-select, selecting
    an id that does not resolve clears the selection of node 2. *)
Lemma setSelected_unresolved_not_noop :
  getNodeById (IdStr "ghost") Sample.familySelected = None
  ∧ multipleSelect Sample.familySelected = false
  ∧ isSelected 2 Sample.familySelected = true
  ∧ isSelected 2 (setSelected (RefId (IdStr "ghost")) true Sample.familySelected) = false
  ∧ setSelected (RefId (IdStr "ghost")) true Sample.familySelected ≠ Sample.familySelected.
Proof. vm_compute. repeat split; done. Qed.

(** ** Dropping on the source, or on nothing *)

Lemma setDragContainer_structure r d s :
  treeView (setDragContainer r d s) = treeView s
  ∧ sansDropContainer <$> nodes (setDragContainer r d s) = sansDropContainer <$> nodes s
  ∧ dropNodeId (setDragContainer r d s) = dropNodeId s.
Proof.
  unfold setDragContainer.
  destruct r as [a|i]; [|destruct (getNodeById i s) as [a|]]; simpl; try done.
  all: split; [done|]; split; [|done]; by apply sansDropContainer_alter.
Qed.

(** C8: when no drop target is recorded, or the recorded target is the
    dragged node itself, [handleDrop] returns without an exception; the
    tree view (roots, flattened view, index) is the one it found, and so
    is every node object but for its drop indicator: nothing is detached,
    reparented or inserted. *)
Theorem drop_on_self_or_nothing (sourceNode : positive) (s : State) :
  dropNodeId s = None ∨ dropNodeId s = id <$> nodes s !! sourceNode →
  ∃ s', handleDrop sourceNode s = Returned s'
        ∧ treeView s' = treeView s
        ∧ sansDropContainer <$> nodes s' = sansDropContainer <$> nodes s
        ∧ dropNodeId s' = dropNodeId s.
Proof.
  intros Hd. unfold handleDrop.
  destruct (dropNodeId s) as [d|] eqn:Ed; [|eexists; split; [reflexivity|done]].
  destruct Hd as [?|Hd]; [done|].
  set (s0 := setDragging false s).
  set (s1 := if truthyId d then setDragContainer (RefId d) (DcBool false) s0 else s0).
  assert (H1 : treeView s1 = treeView s
               ∧ sansDropContainer <$> nodes s1 = sansDropContainer <$> nodes s
               ∧ dropNodeId s1 = Some d).
  { subst s1. destruct (truthyId d); [|done].
    destruct (setDragContainer_structure (RefId d) (DcBool false) s0) as (-> & -> & ->).
    done. }
  assert (Hid : id <$> nodes s1 !! sourceNode = Some d).
  { destruct H1 as (_ & Hn & _).
    apply (f_equal (λ m : gmap positive TreeNode, id <$> m !! sourceNode)) in Hn.
    rewrite !lookup_fmap, <- !option_fmap_compose in Hn. by rewrite Hd. }
  destruct (nodes s1 !! sourceNode) as [src|] eqn:Es; [|done].
  simpl in Hid. injection Hid as <-.
  rewrite bool_decide_eq_false_2 by (intros H; by apply H).
  rewrite andb_false_r. exists s1. split; [reflexivity|exact H1].
Qed.

Lemma drop_on_self_or_nothing_witness :
  ∃ s', handleDrop 2 Sample.draggingOverSelf = Returned s'
        ∧ treeView s' = treeView Sample.draggingOverSelf
        ∧ sansDropContainer <$> nodes s' = sansDropContainer <$> nodes Sample.draggingOverSelf
        ∧ dropNodeId s' = dropNodeId Sample.draggingOverSelf.
Proof.
  apply (drop_on_self_or_nothing 2 Sample.draggingOverSelf).
  right. vm_compute. reflexivity.
Defined.

(** ** Success of the fetch *)

Lemma setLoading_resolved r a b s :
  resolve r s = Some a → setLoading r b s = forceUpdate None (onNode a (node_setLoading b) s).
Proof. destruct r as [a'|i]; simpl; [by intros [= ->]|by intros ->]. Qed.

Lemma setChildren_resolved r a cs t b s :
  resolve r s = Some a →
  setChildren r cs t b s
  = forceUpdate None (enhanceNodes false (onNode a (node_setNodeChildren cs t b) s)).
Proof. destruct r as [a'|i]; simpl; [by intros [= ->]|by intros ->]. Qed.

Lemma resolve_index r s s' :
  idIndex (treeView s') = idIndex (treeView s) → resolve r s' = resolve r s.
Proof. intros H. destruct r; [done|]. unfold resolve, getNodeById. by rewrite H. Qed.

(** The nodes [setRawChildren] leaves under a parent that resolves. *)
Lemma setRawChildren_resolved r a cs t b s :
  resolve r s = Some a →
  let w := wrapAll (tv_options (treeView s)) (Some a) cs O (nodes s) in
  nodes (setRawChildren r cs t b s) = alter (node_setNodeChildren w.2 t b) a w.1
  ∧ idIndex (treeView (setRawChildren r cs t b s)) = idIndex (treeView s)
  ∧ enhancedData (treeView (setRawChildren r cs t b s)) = enhancedData (treeView s)
  ∧ fetches (setRawChildren r cs t b s) = fetches s
  ∧ consoleErrors (setRawChildren r cs t b s) = consoleErrors s.
Proof.
  intros Hr. unfold setRawChildren, staticEnhance. simpl. rewrite Hr. simpl.
  destruct (wrapAll _ _ _ _ _) as [h ws]. simpl.
  rewrite (setChildren_resolved r a); [done|].
  rewrite <- Hr. by apply resolve_index.
Qed.

(** What the body of the [try] leaves when the fetch returns [recs], in a
    state [t] in which the node argument still names the object [a]. *)
Lemma afterGetChildren_resolved r a n recs t :
  resolve r t = Some a → nodes t !! a = Some n →
  ∃ t' kids,
    afterGetChildren r a (Resolved recs) t = Done t' tt
    ∧ Forall2 (wraps (Some a) (nodes t) (nodes t')) kids recs
    ∧ nodes t' !! a
      = Some (node_setNodeChildren kids (Some ChildLast) true
                (node_setOpened true (node_setLoading false n)))
    ∧ idIndex (treeView t') = idIndex (treeView t)
    ∧ enhancedData (treeView t') = enhancedData (treeView t)
    ∧ fetches t' = fetches t
    ∧ consoleErrors t' = consoleErrors t.
Proof.
  intros Hr Hn. unfold afterGetChildren.
  rewrite (setLoading_resolved r a) by done.
  set (t2 := onNode a (node_setOpened true) _).
  assert (Hr2 : resolve r t2 = Some a) by (rewrite <- Hr; by apply resolve_index).
  assert (Hn2 : nodes t2 !! a = Some (node_setOpened true (node_setLoading false n))).
  { subst t2. simpl. by rewrite !lookup_alter_eq, Hn. }
  destruct (setRawChildren_resolved r a recs (Some ChildLast) true t2 Hr2)
    as (Hnodes & Hidx & Hroots & Hf & He).
  destruct (wrapAll_ok (tv_options (treeView t2)) (Some a) recs O (nodes t2)) as [Hext Hw].
  set (w := wrapAll _ _ _ _ _) in *.
  eexists _, w.2. split; [reflexivity|]. simpl.
  repeat split; try done.
  - eapply Forall2_impl; [exact Hw|]. intros c d (Hc & m & Hm & Hd & Hp).
    assert (c ≠ a) by congruence.
    split.
    + subst t2. simpl in Hc. rewrite !lookup_alter_ne in Hc by done. done.
    + exists m. rewrite Hnodes, lookup_alter_ne by done. done.
  - rewrite Hnodes, lookup_alter_eq, (Hext _ _ Hn2). done.
Qed.

(** Opening a closed lazy node, the fetch returning [recs], run to the end. *)
Lemma setOpen_opens r a f s recs :
  resolve r s = Some a → fetchCapability a s = Some f → isOpened a s = false →
  let s' := (run (λ _ _, Resolved recs) (setOpen r) s).1 in
  resolve r s' = Some a
  ∧ fetchCapability a s' = Some f
  ∧ isOpened a s' = true
  ∧ isLoading a s' = false
  ∧ fetches s' = fetches s ++ [MkFetchCall f r]
  ∧ consoleErrors s' = consoleErrors s
  ∧ Forall2 (wraps (Some a) (nodes s) (nodes s')) (childrenOf a s') recs.
Proof.
  intros Hr Hf Ho. unfold run. rewrite (setOpen_fetches r a f), runSusp_Await by done.
  cbv beta.
  pose proof (loading_state r a f s) as (Hn1 & Hv1 & Hr1 & Hf1 & _ & _ & Hl1 & He1).
  set (s1 := invokeGetChildren _ _) in *.
  destruct (fetchCapability_is_Some _ _ _ Hf) as [n Hn].
  assert (Hn' : nodes s1 !! a = Some (node_setLoading true n)).
  { by rewrite Hn1, lookup_alter_eq, Hn. }
  destruct (afterGetChildren_resolved r a _ recs s1 (eq_trans Hr1 Hr) Hn')
    as (t' & kids & -> & Hw & Ha & Hidx & _ & Hl & He).
  simpl. split; [|split; [|split; [|split; [|split; [|split]]]]].
  - rewrite <- Hr. apply resolve_index. by rewrite Hidx, Hv1.
  - rewrite <- Hf. unfold fetchCapability. by rewrite Ha, Hn.
  - unfold isOpened. by rewrite Ha.
  - unfold isLoading. by rewrite Ha.
  - by rewrite Hl, Hl1.
  - by rewrite He, He1.
  - unfold childrenOf. rewrite Ha. simpl.
    eapply Forall2_impl; [exact Hw|]. intros c d (Hc & Hm). split; [|done].
    rewrite Hn1 in Hc. destruct (decide (c = a)) as [->|Hne].
    + rewrite lookup_alter_eq, Hn in Hc. done.
    + by rewrite lookup_alter_ne in Hc.
Qed.

(** [setOpen] on an opened node: it returns without awaiting anything. *)
Lemma setOpen_closes r a s :
  resolve r s = Some a → isOpened a s = true →
  ∃ s', setOpen r s = Done s' tt
        ∧ nodes s' = alter (node_setOpened false) a (nodes s)
        ∧ idIndex (treeView s') = idIndex (treeView s)
        ∧ fetches s' = fetches s.
Proof.
  intros Hr Ho. unfold setOpen. rewrite Hr, Ho.
  eexists. split; [by destruct (fetchCapability a s)|]. done.
Qed.

(** C5: on a closed node with a fetch capability, [setOpen] sets the
    loading flag and invokes the fetch; when the fetch returns records, it
    clears the loading flag, sets the opened flag and, through
    [setRawChildren(node, asyncData, 'last', true)], makes the children
    of the node exactly the new objects wrapping the fetched records, in
    order. *)
Theorem setOpen_lazy_success (r : NodeRef) (a : positive) (f : nat) (s : State)
    (recs : list IData) :
  resolve r s = Some a → fetchCapability a s = Some f → isOpened a s = false →
  ∃ s1 s2,
    setOpen r s = Await s1 (MkFetchCall f r) (afterGetChildren r a)
    ∧ isLoading a s1 = true
    ∧ fetches s1 = fetches s ++ [MkFetchCall f r]
    ∧ afterGetChildren r a (Resolved recs) s1 = Done s2 tt
    ∧ s2 = forceUpdate (Some (enhanceNodes false))
             (setRawChildren r recs (Some ChildLast) true
                (onNode a (node_setOpened true) (setLoading r false s1)))
    ∧ isLoading a s2 = false
    ∧ isOpened a s2 = true
    ∧ Forall2 (wraps (Some a) (nodes s) (nodes s2)) (childrenOf a s2) recs.
Proof.
  intros Hr Hf Ho.
  pose proof (setOpen_opens r a f s recs Hr Hf Ho) as H. unfold run in H.
  rewrite (setOpen_fetches r a f), runSusp_Await in H by done. cbv beta in H.
  pose proof (loading_state r a f s) as (_ & _ & _ & _ & _ & _ & Hl1 & _).
  set (s1 := invokeGetChildren _ _) in *.
  exists s1, (forceUpdate (Some (enhanceNodes false))
                (setRawChildren r recs (Some ChildLast) true
                   (onNode a (node_setOpened true) (setLoading r false s1)))).
  split; [by apply setOpen_fetches|].
  split; [by eapply isLoading_loading_state, fetchCapability_is_Some|].
  split; [done|]. split; [done|]. split; [done|].
  destruct H as (_ & _ & Ho' & Hl' & _ & _ & Hw). done.
Qed.

Lemma setOpen_lazy_success_witness :
  ∃ s1 s2,
    setOpen (RefId (IdNum 1)) Sample.lazy
    = Await s1 (MkFetchCall 0 (RefId (IdNum 1))) (afterGetChildren (RefId (IdNum 1)) 1)
    ∧ isLoading 1 s1 = true
    ∧ fetches s1 = fetches Sample.lazy ++ [MkFetchCall 0 (RefId (IdNum 1))]
    ∧ afterGetChildren (RefId (IdNum 1)) 1 (Resolved [Sample.record 7 [] GcAbsent]) s1
      = Done s2 tt
    ∧ s2 = forceUpdate (Some (enhanceNodes false))
             (setRawChildren (RefId (IdNum 1)) [Sample.record 7 [] GcAbsent]
                (Some ChildLast) true
                (onNode 1 (node_setOpened true) (setLoading (RefId (IdNum 1)) false s1)))
    ∧ isLoading 1 s2 = false
    ∧ isOpened 1 s2 = true
    ∧ Forall2 (wraps (Some 1%positive) (nodes Sample.lazy) (nodes s2)) (childrenOf 1 s2)
        [Sample.record 7 [] GcAbsent].
Proof.
  apply (setOpen_lazy_success (RefId (IdNum 1)) 1 0 Sample.lazy);
    vm_compute; reflexivity.
Defined.

(** ** Lazy children across a close/open cycle *)

(** C9: a lazy node opened (fetch returning [recs1]), closed and opened
    again (fetch returning [recs2]): each opening invokes the capability
    and leaves as children new objects wrapping what that fetch returned,
    none of them an object that existed before it; the closing in between
    returns at once, invokes nothing and keeps the children, as [setOpen]
    does on the node in any state in which it is opened. *)
Theorem lazy_children_refetched (r : NodeRef) (a : positive) (f : nat) (s : State)
    (recs1 recs2 : list IData) :
  resolve r s = Some a → fetchCapability a s = Some f → isOpened a s = false →
  let c := MkFetchCall f r in
  let s1 := (run (λ _ _, Resolved recs1) (setOpen r) s).1 in
  (∃ s2,
    let s3 := (run (λ _ _, Resolved recs2) (setOpen r) s2).1 in
    isOpened a s1 = true
    ∧ fetches s1 = fetches s ++ [c]
    ∧ Forall2 (wraps (Some a) (nodes s) (nodes s1)) (childrenOf a s1) recs1
    ∧ setOpen r s1 = Done s2 tt
    ∧ isOpened a s2 = false
    ∧ fetches s2 = fetches s1
    ∧ childrenOf a s2 = childrenOf a s1
    ∧ isOpened a s3 = true
    ∧ fetches s3 = fetches s ++ [c; c]
    ∧ Forall2 (wraps (Some a) (nodes s2) (nodes s3)) (childrenOf a s3) recs2)
  ∧ (∀ t, resolve r t = Some a → isOpened a t = true →
          ∃ t', setOpen r t = Done t' tt
                ∧ fetches t' = fetches t
                ∧ isOpened a t' = false
                ∧ childrenOf a t' = childrenOf a t).
Proof.
  intros Hr Hf Ho c s1. split.
  - destruct (setOpen_opens r a f s recs1 Hr Hf Ho)
      as (Hr1 & Hf1 & Ho1 & _ & Hl1 & _ & Hw1).
    fold s1 in Hr1, Hf1, Ho1, Hl1, Hw1.
    destruct (setOpen_closes r a s1 Hr1 Ho1) as (s2 & Hs2 & Hn2 & Hi2 & Hl2).
    assert (Hr2 : resolve r s2 = Some a) by (rewrite <- Hr1; by apply resolve_index).
    assert (Hf2 : fetchCapability a s2 = Some f).
    { rewrite <- Hf1. by apply (fetchCapability_alter a a (node_setOpened false)). }
    assert (Ho2 : isOpened a s2 = false).
    { destruct (fetchCapability_is_Some _ _ _ Hf1) as [n Hn].
      unfold isOpened. by rewrite Hn2, lookup_alter_eq, Hn. }
    destruct (setOpen_opens r a f s2 recs2 Hr2 Hf2 Ho2)
      as (_ & _ & Ho3 & _ & Hl3 & _ & Hw3).
    exists s2. simpl. repeat split; try done.
    + by apply (childrenOf_alter a a (node_setOpened false)).
    + rewrite Hl3, Hl2, Hl1, <- app_assoc. done.
  - intros t Hrt Hot.
    destruct (setOpen_closes r a t Hrt Hot) as (t' & Ht' & Hn' & _ & Hl').
    exists t'. repeat split; try done.
    + unfold isOpened in *. rewrite Hn', lookup_alter_eq.
      by destruct (nodes t !! a).
    + by apply (childrenOf_alter a a (node_setOpened false)).
Qed.

Lemma lazy_children_refetched_witness :
  let r := RefId (IdNum 1) in
  let c := MkFetchCall 0 r in
  let s1 := (run (Sample.yields [Sample.record 7 [] GcAbsent]) (setOpen r) Sample.lazy).1 in
  (∃ s2,
    let s3 := (run (Sample.yields [Sample.record 8 [] GcAbsent]) (setOpen r) s2).1 in
    isOpened 1 s1 = true
    ∧ fetches s1 = fetches Sample.lazy ++ [c]
    ∧ Forall2 (wraps (Some 1%positive) (nodes Sample.lazy) (nodes s1)) (childrenOf 1 s1)
        [Sample.record 7 [] GcAbsent]
    ∧ setOpen r s1 = Done s2 tt
    ∧ isOpened 1 s2 = false
    ∧ fetches s2 = fetches s1
    ∧ childrenOf 1 s2 = childrenOf 1 s1
    ∧ isOpened 1 s3 = true
    ∧ fetches s3 = fetches Sample.lazy ++ [c; c]
    ∧ Forall2 (wraps (Some 1%positive) (nodes s2) (nodes s3)) (childrenOf 1 s3)
        [Sample.record 8 [] GcAbsent])
  ∧ (∀ t, resolve r t = Some 1%positive → isOpened 1 t = true →
          ∃ t', setOpen r t = Done t' tt
                ∧ fetches t' = fetches t
                ∧ isOpened 1 t' = false
                ∧ childrenOf 1 t' = childrenOf 1 t).
Proof.
  apply (lazy_children_refetched (RefId (IdNum 1)) 1 0 Sample.lazy
           [Sample.record 7 [] GcAbsent] [Sample.record 8 [] GcAbsent]);
    vm_compute; reflexivity.
Defined.

(** ** The walk reaches the whole graph

    The depth bound of [walk] loses nothing: a node that can be reached
    at all can be reached along a path without repetition, which has no
    more nodes than the store has objects. *)

Lemma walk_nonempty fuel h x a : a ∈ walk fuel h x → is_Some (h !! x).
Proof.
  destruct fuel; simpl; [by intros ?%elem_of_nil|].
  destruct (h !! x); [by eexists|by intros ?%elem_of_nil].
Qed.

Lemma elem_of_flat_map {A B} (f : A → list B) (l : list A) (y : B) :
  y ∈ flat_map f l ↔ ∃ x, x ∈ l ∧ y ∈ f x.
Proof.
  induction l as [|x l IH]; simpl.
  - split; [by intros ?%elem_of_nil|]. by intros (x & ?%elem_of_nil & _).
  - rewrite elem_of_app, IH. split.
    + intros [Hy|(z & Hz & Hy)]; [exists x|exists z]; rewrite elem_of_cons; auto.
    + intros (z & [->|Hz]%elem_of_cons & Hy); [by left|right; by exists z].
Qed.

Lemma walk_reachable h roots fuel x a :
  reachable h roots x → a ∈ walk fuel h x → reachable h roots a.
Proof.
  revert x. induction fuel as [|fuel IH]; intros x Hx; simpl; [by intros ?%elem_of_nil|].
  destruct (h !! x) as [n|] eqn:En; [|by intros ?%elem_of_nil].
  intros [->|(c & Hc & Ha)%elem_of_flat_map]%elem_of_cons; [done|].
  apply (IH c); [|done]. eapply reach_child; [exact Hx|exact En|exact Hc|].
  by eapply walk_nonempty.
Qed.

Lemma walk_mono h n m x a : n ≤ m → a ∈ walk n h x → a ∈ walk m h x.
Proof.
  revert m x. induction n as [|n IH]; intros m x Hle; simpl; [by intros ?%elem_of_nil|].
  destruct m as [|m]; [lia|]. simpl. destruct (h !! x) as [nx|]; [|done].
  rewrite !elem_of_cons, !elem_of_flat_map.
  intros [->|(c & Hc & Ha)]; [by left|]. right. exists c. split; [done|].
  apply IH; [lia|done].
Qed.

Lemma chain_walk h x l y :
  chain h x l y → is_Some (h !! y) → y ∈ walk (S (List.length l)) h x.
Proof.
  revert x. induction l as [|z l IH]; intros x; simpl.
  - intros -> [n ->]. apply elem_of_cons. by left.
  - intros [(n & -> & Hz) Hc] Hy. apply elem_of_cons. right.
    apply elem_of_flat_map. exists z. split; [done|]. by apply IH.
Qed.

Lemma chain_snoc h x l y n c :
  chain h x l y → h !! y = Some n → c ∈ children n → chain h x (l ++ [c]) c.
Proof.
  revert x. induction l as [|z l IH]; intros x; simpl.
  - intros -> Hn Hc. split; [by exists n|done].
  - intros [Hx Hz] Hn Hc. split; [done|]. by apply IH.
Qed.

Lemma chain_suffix h x l1 z l2 y : chain h x (l1 ++ z :: l2) y → chain h z l2 y.
Proof.
  revert x. induction l1 as [|w l1 IH]; intros x; simpl.
  - by intros [_ H].
  - intros [_ H]. by apply (IH w).
Qed.

Lemma chain_dom h x l y a :
  chain h x l y → is_Some (h !! y) → a ∈ x :: l → is_Some (h !! a).
Proof.
  revert x. induction l as [|z l IH]; intros x; simpl.
  - intros -> Hy ->%list_elem_of_singleton. done.
  - intros [(n & Hn & _) Hc] Hy [->|Ha]%elem_of_cons; [by eexists|]. by apply (IH z).
Qed.

(** A path can be cut down to one that visits no node twice. *)
Lemma chain_simple h x l y :
  chain h x l y → ∃ l', chain h x l' y ∧ NoDup (x :: l').
Proof.
  revert x. induction l as [|z l IH]; intros x; simpl.
  - intros ->. exists []. split; [done|]. apply NoDup_singleton.
  - intros [Hx Hc]. destruct (IH z Hc) as (l' & Hc' & Hnd).
    destruct (decide (x ∈ z :: l')) as [Hin|Hnin].
    + apply list_elem_of_split in Hin as (l1 & l2 & Heq).
      exists l2. split.
      * destruct l1 as [|w l1]; simpl in Heq.
        -- injection Heq as -> ->. done.
        -- injection Heq as -> ->. by eapply chain_suffix.
      * rewrite Heq in Hnd. by apply NoDup_app in Hnd as (_ & _ & Hnd).
    + exists (z :: l'). split; [done|]. by apply NoDup_cons.
Qed.

Lemma NoDup_length_size (h : gmap positive TreeNode) (l : list positive) :
  NoDup l → (∀ a, a ∈ l → is_Some (h !! a)) → List.length l ≤ size h.
Proof.
  intros Hnd Hl. rewrite <- (size_dom (D:=gset positive) h).
  rewrite <- (size_list_to_set (C:=gset positive) l) by done.
  apply subseteq_size. intros a Ha. apply elem_of_dom, Hl.
  by apply elem_of_list_to_set in Ha.
Qed.

Lemma reachable_chain h roots a :
  reachable h roots a → is_Some (h !! a) ∧ ∃ r l, r ∈ roots ∧ chain h r l a.
Proof.
  induction 1 as [a Ha Hs|a n c _ [_ (r & l & Hr & Hc)] Hn Hin Hs].
  - split; [done|]. by exists a, [].
  - split; [done|]. exists r, (l ++ [c]). split; [done|]. by eapply chain_snoc.
Qed.

(** The walk of the view finds exactly the reachable nodes. *)
Lemma elem_of_graph_reachable h roots a : a ∈ graph h roots ↔ reachable h roots a.
Proof.
  unfold graph. rewrite elem_of_flat_map. split.
  - intros (r & Hr & Ha). eapply walk_reachable; [|exact Ha].
    apply reach_root; [done|]. by eapply walk_nonempty.
  - intros [Hs (r & l & Hr & Hc)]%reachable_chain.
    destruct (chain_simple _ _ _ _ Hc) as (l' & Hc' & Hnd).
    exists r. split; [done|]. eapply walk_mono; [|by apply chain_walk].
    apply (NoDup_length_size h (r :: l')); [done|].
    intros b Hb. by eapply chain_dom.
Qed.

(** ** Single selection *)

Lemma walk_alter f a h fuel x :
  (∀ n, children (f n) = children n) → walk fuel (alter f a h) x = walk fuel h x.
Proof.
  intros Hf. revert x. induction fuel as [|fuel IH]; intros x; simpl; [done|].
  rewrite lookup_alter. destruct (decide (a = x)) as [->|?].
  - destruct (h !! x) as [m|]; simpl; [|done]. rewrite Hf. f_equal.
    by apply flat_map_ext.
  - destruct (h !! x) as [m|]; [|done]. f_equal. by apply flat_map_ext.
Qed.

Lemma size_alter (f : TreeNode → TreeNode) a (h : gmap positive TreeNode) :
  size (alter f a h) = size h.
Proof. by rewrite <- !size_dom, dom_alter_L. Qed.

Lemma graph_alter f a h roots :
  (∀ n, children (f n) = children n) → graph (alter f a h) roots = graph h roots.
Proof.
  intros Hf. unfold graph. rewrite size_alter. apply flat_map_ext.
  intros x. by apply walk_alter.
Qed.

Lemma graph_foldr_alter f l h roots :
  (∀ n, children (f n) = children n) → graph (foldr (alter f) h l) roots = graph h roots.
Proof.
  intros Hf. induction l as [|x l IH]; simpl; [done|]. by rewrite graph_alter.
Qed.

Lemma graphOf_setSelected r b s : graphOf (setSelected r b s) = graphOf s.
Proof.
  assert (Hu : graphOf (unselectAll s) = graphOf s).
  { unfold graphOf, unselectAll. simpl. by apply graph_foldr_alter. }
  assert (Hg : ∀ t, graphOf (match r with
                             | RefNode a => forceUpdate None (onNode a (node_setSelected b) t)
                             | RefId i =>
                                 match getNodeById i t with
                                 | Some foundNode =>
                                     forceUpdate None (onNode foundNode (node_setSelected b) t)
                                 | None => t
                                 end
                             end) = graphOf t).
  { intros t. destruct r as [a|i]; [|destruct (getNodeById i t)]; try done.
    all: unfold graphOf; simpl; by apply graph_alter. }
  unfold setSelected. rewrite Hg. by destruct (negb (multipleSelect s) && b).
Qed.

Lemma multipleSelect_setSelected r b s :
  multipleSelect (setSelected r b s) = multipleSelect s.
Proof.
  unfold setSelected. destruct (negb (multipleSelect s) && b), r as [a|i]; simpl; try done.
  all: by match goal with |- context [getNodeById ?i ?t] => destruct (getNodeById i t) end.
Qed.

Lemma isSelected_unselectAll a s : a ∈ graphOf s → isSelected a (unselectAll s) = false.
Proof.
  unfold graphOf, isSelected, unselectAll. simpl.
  generalize (graph (nodes s) (enhancedData (treeView s))). intros l.
  induction l as [|x l IH]; intros Ha; [by apply elem_of_nil in Ha|]. simpl.
  rewrite lookup_alter. destruct (decide (x = a)) as [->|Hne].
  - by destruct (foldr _ _ _ !! a).
  - apply IH. apply elem_of_cons in Ha as [->|Ha]; done.
Qed.

Lemma isSelected_select a b x t :
  isSelected x (forceUpdate None (onNode a (node_setSelected b) t)) = true →
  (b = true ∧ x = a) ∨ isSelected x t = true.
Proof.
  unfold isSelected. simpl. rewrite lookup_alter.
  destruct (decide (a = x)) as [->|]; [|by right].
  destruct (nodes t !! x); simpl; [|done]. destruct b; [by left|done].
Qed.

(** One call keeps the selection single. *)
Lemma singleSelect_setSelected r b s :
  multipleSelect s = false → singleSelect s → singleSelect (setSelected r b s).
Proof.
  intros Hm Hs x y. rewrite graphOf_setSelected. unfold setSelected. rewrite Hm. simpl.
  destruct b.
  - (* the graph is cleared first: only the node of this call can be selected *)
    intros Hx Hy.
    pose proof (isSelected_unselectAll x s Hx) as Hx'.
    pose proof (isSelected_unselectAll y s Hy) as Hy'.
    destruct r as [a|i]; [|destruct (getNodeById i (unselectAll s)) as [a|]].
    + intros [[_ ->]|E]%isSelected_select [[_ ->]|E']%isSelected_select; congruence.
    + intros [[_ ->]|E]%isSelected_select [[_ ->]|E']%isSelected_select; congruence.
    + congruence.
  - intros Hx Hy.
    destruct r as [a|i]; [|destruct (getNodeById i s) as [a|]].
    + intros [[? _]|E]%isSelected_select [[? _]|E']%isSelected_select; try done.
      by apply Hs.
    + intros [[? _]|E]%isSelected_select [[? _]|E']%isSelected_select; try done.
      by apply Hs.
    + by apply Hs.
Qed.

Lemma singleSelect_count s : singleSelect s ↔ List.length (selectedNodes s) ≤ 1.
Proof.
  unfold singleSelect, selectedNodes.
  assert (Hnd : NoDup (filter (λ a, isSelected a s = true) (remove_dups (graphOf s))))
    by apply NoDup_filter, NoDup_remove_dups.
  assert (Hin : ∀ a, a ∈ filter (λ a, isSelected a s = true) (remove_dups (graphOf s))
                     ↔ isSelected a s = true ∧ a ∈ graphOf s).
  { intros a. by rewrite list_elem_of_filter, elem_of_remove_dups. }
  revert Hnd Hin. generalize (filter (λ a, isSelected a s = true) (remove_dups (graphOf s))).
  intros l Hnd Hin. split.
  - intros Hs. destruct l as [|x [|y l]]; simpl; [lia|lia|].
    assert (Hx : x ∈ x :: y :: l) by (rewrite !elem_of_cons; auto).
    assert (Hy : y ∈ x :: y :: l) by (rewrite !elem_of_cons; auto).
    apply Hin in Hx as [Hx1 Hx2]. apply Hin in Hy as [Hy1 Hy2].
    assert (x = y) as -> by (by apply Hs).
    apply NoDup_cons in Hnd as [Hnd _]. destruct Hnd. apply elem_of_cons. by left.
  - intros Hl a b Ha Hb Hsa Hsb.
    assert (a ∈ l) as Hal by (by apply Hin).
    assert (b ∈ l) as Hbl by (by apply Hin).
    destruct l as [|x [|y l]]; simpl in Hl; [| |lia].
    + by apply elem_of_nil in Hal.
    + apply list_elem_of_singleton in Hal, Hbl. congruence.
Qed.

(** The count speaks of the whole graph: at most one selected node among
    all that can be reached from the roots. *)
Lemma singleSelect_reachable s :
  List.length (selectedNodes s) ≤ 1
  ↔ ∀ a b, reachable (nodes s) (enhancedData (treeView s)) a →
           reachable (nodes s) (enhancedData (treeView s)) b →
           isSelected a s = true → isSelected b s = true → a = b.
Proof.
  rewrite <- singleSelect_count. unfold singleSelect, graphOf.
  split; intros H a b Ha Hb; apply H; by apply elem_of_graph_reachable.
Qed.

(** A freshly built tree has no selected node. *)
Lemma wrapEach_unselected w ds :
  Forall (λ d, ∀ k h, map_Forall (λ _ n, selected (options n) = false) h →
                      map_Forall (λ _ n, selected (options n) = false) (w k d h).1) ds →
  ∀ k h, map_Forall (λ _ n, selected (options n) = false) h →
         map_Forall (λ _ n, selected (options n) = false) (wrapEach w ds k h).1.
Proof.
  induction 1 as [|d ds Hd _ IH]; intros k h Hh; simpl; [done|].
  specialize (Hd k h Hh). destruct (w k d h) as [h1 c]; simpl in *.
  specialize (IH (S k) h1 Hd). by destruct (wrapEach w ds (S k) h1).
Qed.

Lemma wrap_unselected o d :
  ∀ par k h, map_Forall (λ _ n, selected (options n) = false) h →
             map_Forall (λ _ n, selected (options n) = false) (wrap o par k d h).1.
Proof.
  induction d as [i cs g p IH] using IData_ind'. intros par k h Hh. simpl.
  set (a := fresh (dom h)). set (new := newNode o par k _).
  assert (H0 : map_Forall (λ _ n, selected (options n) = false) (<[a:=new]> h)).
  { by apply map_Forall_insert_2. }
  assert (Hk : Forall (λ d, ∀ k h, map_Forall (λ _ n, selected (options n) = false) h →
                 map_Forall (λ _ n, selected (options n) = false) (wrap o (Some a) k d h).1) cs).
  { eapply Forall_impl; [exact IH|]. intros d Hd. apply Hd. }
  pose proof (wrapEach_unselected _ _ Hk O _ H0) as H1.
  destruct (wrapEach _ _ _ _) as [h' kids]. simpl in *.
  intros b n Hb. rewrite lookup_alter in Hb. destruct (decide (a = b)) as [->|?].
  - destruct (h' !! b) as [m|] eqn:Em; [|done]. injection Hb as <-. by apply (H1 b m).
  - by apply (H1 b n).
Qed.

Lemma initialState_none_selected i d o multi :
  selectedNodes (initialState i d o multi) = [].
Proof.
  unfold selectedNodes, initialState, newTreeView.
  assert (H : map_Forall (λ _ n, selected (options n) = false) (wrapAll o None d O ∅).1).
  { apply wrapEach_unselected; [|apply map_Forall_empty].
    apply Forall_forall. intros x _. apply wrap_unselected. }
  destruct (wrapAll o None d O ∅) as [h rs]. simpl in H.
  assert (Hsel : ∀ s a, nodes s = h → isSelected a s = false).
  { intros s a Hs. unfold isSelected. rewrite Hs.
    destruct (h !! a) as [n|] eqn:E; [|done]. simpl. by apply (H a n). }
  destruct (enhance o); simpl.
  all: match goal with |- filter _ ?l0 = [] => induction l0 as [|x l IHl]; [done|] end.
  all: rewrite filter_cons, decide_False; [exact IHl|]; by rewrite Hsel.
Qed.

(** C3: with multi-select disabled, from a tree in which at most one node
    of the graph is selected (a freshly built tree has none), any sequence
    of [setSelected] calls, on node objects or on ids, resolving or not,
    leaves at most one node of the whole graph selected. *)
Theorem single_select_invariant (calls : list (NodeRef * bool)) (s : State) :
  multipleSelect s = false →
  List.length (selectedNodes s) ≤ 1 →
  List.length (selectedNodes (setSelectedAll calls s)) ≤ 1.
Proof.
  intros Hm Hs. apply singleSelect_count. apply singleSelect_count in Hs.
  revert s Hm Hs. unfold setSelectedAll.
  induction calls as [|[r b] calls IH]; intros s Hm Hs; simpl; [done|].
  apply IH; [by rewrite multipleSelect_setSelected|by apply singleSelect_setSelected].
Qed.

Lemma single_select_invariant_witness :
  List.length
    (selectedNodes
       (setSelectedAll [(RefId (IdNum 2), true); (RefNode 3, true);
                        (RefId (IdStr "ghost"), false); (RefId (IdNum 1), true)]
          Sample.family)) ≤ 1.
Proof.
  apply (single_select_invariant _ Sample.family); vm_compute; [reflexivity|lia].
Defined.

(** ** Siblings of a root *)

Lemma elem_of_graph h roots a :
  a ∈ roots → is_Some (h !! a) → a ∈ graph h roots.
Proof.
  intros Ha [n Hn]. unfold graph.
  assert (Hw : a ∈ walk (size h) h a).
  { destruct (size h) as [|k] eqn:Ek.
    - apply map_size_empty_inv in Ek. subst h. by rewrite lookup_empty in Hn.
    - simpl. rewrite Hn. apply elem_of_cons. by left. }
  induction roots as [|x roots IH]; [by apply elem_of_nil in Ha|]. simpl.
  apply elem_of_app. apply elem_of_cons in Ha as [<-|Ha]; [by left|right; by apply IH].
Qed.

(** Every node of the graph is found in the rebuilt index under its id,
    or a node with the same id is (the last one walked wins). *)
Lemma rebuildIndex_lookup h roots a n :
  a ∈ graph h roots → h !! a = Some n →
  ∃ b, rebuildIndex h roots !! id n = Some b ∧ id <$> h !! b = Some (id n).
Proof.
  unfold rebuildIndex. generalize (graph h roots). intros l.
  induction l as [|x l IH] using rev_ind; intros Ha Hn; [by apply elem_of_nil in Ha|].
  rewrite foldl_snoc. apply elem_of_app in Ha as [Ha|Ha].
  - destruct (IH Ha Hn) as (b & Hb & Hid).
    destruct (h !! x) as [nx|] eqn:Ex; [|by exists b].
    destruct (decide (id nx = id n)) as [Heq|Hne].
    + exists x. rewrite Heq, lookup_insert_eq, Ex. simpl. by rewrite Heq.
    + exists b. by rewrite lookup_insert_ne.
  - apply list_elem_of_singleton in Ha as ->. rewrite Hn.
    exists x. by rewrite lookup_insert_eq, Hn.
Qed.

Lemma foldr_asRoot_lookup (l : list positive) (h : gmap positive TreeNode) a :
  id <$> foldr (alter asRoot) h l !! a = id <$> h !! a
  ∧ (a ∈ l → ∀ m, h !! a = Some m →
     ∃ n, foldr (alter asRoot) h l !! a = Some n
          ∧ parent (options n) = None ∧ root (options n) = true
          ∧ leaf (options n) = false).
Proof.
  induction l as [|x l [IH1 IH2]]; simpl.
  - split; [done|]. intros Ha. by apply elem_of_nil in Ha.
  - rewrite lookup_alter. destruct (decide (x = a)) as [->|Hne].
    + split.
      * rewrite <- IH1. by destruct (foldr _ _ _ !! a).
      * intros _ m Hm. rewrite Hm in IH1.
        destruct (foldr _ _ _ !! a) as [n|]; [|done]. by exists (asRoot n).
    + split; [done|]. intros Ha m Hm.
      apply elem_of_cons in Ha as [->|Ha]; [done|]. by apply (IH2 Ha m).
Qed.

Lemma splice_at {A} (l : list A) i x items :
  l !! i = Some x →
  splice i items l = take i l ++ (items ++ [x]) ++ drop (S i) l
  ∧ splice (S i) items l = take i l ++ (x :: items) ++ drop (S i) l.
Proof.
  intros Hi. unfold splice. split.
  - rewrite (drop_S l x i Hi), <- !app_assoc. done.
  - rewrite (take_S_r l i x Hi), <- !app_assoc. done.
Qed.

(** C7: [setSiblings] on a root target (root flag set, no parent, found
    at index [i] of the roots): the siblings are spliced into the roots
    right before or right after the target, as [type] says; each sibling
    ends with no parent, [root = true] and [leaf = false]; and the view is
    derived anew with the index rebuilt, so that the id of each sibling
    resolves to a node carrying that id. *)
Theorem setSiblings_at_root (r : NodeRef) (t : positive) (tn : TreeNode) (i : nat)
    (siblings : list positive) (type : InsertSiblingType) (s : State) :
  resolve r s = Some t →
  nodes s !! t = Some tn →
  root (options tn) = true →
  parent (options tn) = None →
  findIndex (λ child, sameId (nodes s) t child) (enhancedData (treeView s)) = Some i →
  enhancedData (treeView s) !! i = Some t →
  Forall (λ a, is_Some (nodes s !! a)) siblings →
  let s' := setSiblings r siblings type s in
  let roots := enhancedData (treeView s) in
  enhancedData (treeView s')
  = take i roots
    ++ match type with
       | SiblingBefore => siblings ++ [t]
       | SiblingAfter => t :: siblings
       end
    ++ drop (S i) roots
  ∧ Forall (λ a, ∃ n, nodes s' !! a = Some n
                      ∧ parent (options n) = None
                      ∧ root (options n) = true
                      ∧ leaf (options n) = false
                      ∧ ∃ b, getNodeById (id n) s' = Some b
                             ∧ id <$> nodes s' !! b = Some (id n)) siblings
  ∧ treeView s' = treeView (enhanceNodes true s')
  ∧ idIndex (treeView s') = rebuildIndex (nodes s') (enhancedData (treeView s'))
  ∧ renders s' = S (renders s).
Proof.
  intros Hr Ht Hroot Hpar Hfind Hi Hsib s' roots. subst s'. unfold setSiblings.
  rewrite Hr, Ht. simpl. rewrite Hpar, Ht. simpl. rewrite Hroot, Hfind. simpl.
  destruct (splice_at roots i t siblings Hi) as [Hb Ha].
  repeat split.
  - destruct type; simpl; [apply Hb|apply Ha].
  - apply Forall_forall. intros a Hin.
    rewrite Forall_forall in Hsib. destruct (Hsib a Hin) as [m Hm].
    destruct (foldr_asRoot_lookup siblings (nodes s) a) as [_ Hn].
    destruct (Hn Hin m Hm) as (n & Hn' & Hp & Hro & Hl).
    exists n. repeat split; try done.
    unfold getNodeById. simpl. apply (rebuildIndex_lookup _ _ a n); [|done].
    apply elem_of_graph; [|by eexists].
    unfold splice. rewrite !elem_of_app. right. by left.
Qed.

Lemma setSiblings_at_root_witness :
  let s := Sample.twoRoots in
  let s' := setSiblings (RefId (IdNum 2)) [3; 4]%positive SiblingBefore s in
  enhancedData (treeView s') = [1; 3; 4; 2]%positive
  ∧ Forall (λ a, ∃ n, nodes s' !! a = Some n
                      ∧ parent (options n) = None
                      ∧ root (options n) = true
                      ∧ leaf (options n) = false
                      ∧ ∃ b, getNodeById (id n) s' = Some b
                             ∧ id <$> nodes s' !! b = Some (id n)) [3; 4]%positive
  ∧ treeView s' = treeView (enhanceNodes true s')
  ∧ idIndex (treeView s')
    = rebuildIndex (nodes s') (enhancedData (treeView s'))
  ∧ renders s' = S (renders s).
Proof.
  assert (Hn : nodes Sample.twoRoots !! 2%positive
               = Some (MkNode (IdNum 2) (Sample.record 2 [] GcAbsent) []
                         (MkOptions None true true false false false DcUndefined)))
    by (vm_compute; reflexivity).
  refine (setSiblings_at_root (RefId (IdNum 2)) 2 _ 1 [3; 4]%positive SiblingBefore
            Sample.twoRoots _ Hn _ _ _ _ _); try (vm_compute; reflexivity).
  repeat constructor; vm_compute; by eexists.
Defined.

(** * Further properties of the handlers *)

(** ** A node or its id *)

(** X1: a handler given an id that the index resolves does what it does
    when given the node object itself: this holds for [setLoading],
    [setSelected], [setDragContainer], [setChildren], [setRawChildren],
    [setSiblings], [setNodeData] and [getNodeData]. *)
Theorem id_acts_as_node (i : Id) (a : positive) (s : State) :
  getNodeById i s = Some a →
  (∀ b, setLoading (RefId i) b s = setLoading (RefNode a) b s)
  ∧ (∀ b, setSelected (RefId i) b s = setSelected (RefNode a) b s)
  ∧ (∀ d, setDragContainer (RefId i) d s = setDragContainer (RefNode a) d s)
  ∧ (∀ cs t r, setChildren (RefId i) cs t r s = setChildren (RefNode a) cs t r s)
  ∧ (∀ cs t r, setRawChildren (RefId i) cs t r s = setRawChildren (RefNode a) cs t r s)
  ∧ (∀ sib t, setSiblings (RefId i) sib t s = setSiblings (RefNode a) sib t s)
  ∧ (∀ d, setNodeData (RefId i) d s = setNodeData (RefNode a) d s)
  ∧ getNodeData (RefId i) s = getNodeData (RefNode a) s.
Proof.
  intros Hi.
  assert (Hr : resolve (RefId i) s = Some a) by done.
  repeat split; intros.
  - unfold setLoading. by rewrite Hi.
  - unfold setSelected.
    assert (Hi' : getNodeById i (if negb (multipleSelect s) && b then unselectAll s else s)
                  = Some a) by (by destruct (negb (multipleSelect s) && b)).
    by rewrite Hi'.
  - unfold setDragContainer. by rewrite Hi.
  - unfold setChildren. by rewrite Hi.
  - unfold setRawChildren, staticEnhance. simpl. rewrite Hi. simpl.
    destruct (wrapAll _ _ _ _ _) as [h ws]. unfold setChildren, getNodeById in *.
    simpl. by rewrite Hi.
  - unfold setSiblings. by rewrite Hr.
  - unfold setNodeData. by rewrite Hr.
  - unfold getNodeData. by rewrite Hr.
Qed.

Lemma id_acts_as_node_witness :
  setSelected (RefId (IdStr "b")) true Scenario.forest
  = setSelected (RefNode 2) true Scenario.forest
  ∧ setSiblings (RefId (IdStr "d")) [5%positive] SiblingBefore Scenario.forest
    = setSiblings (RefNode 4) [5%positive] SiblingBefore Scenario.forest.
Proof.
  assert (H : getNodeById (IdStr "b") Scenario.forest = Some 2%positive)
    by (vm_compute; reflexivity).
  assert (H' : getNodeById (IdStr "d") Scenario.forest = Some 4%positive)
    by (vm_compute; reflexivity).
  destruct (id_acts_as_node _ _ _ H) as (_ & Hsel & _).
  destruct (id_acts_as_node _ _ _ H') as (_ & _ & _ & _ & _ & Hsib & _).
  split; [exact (Hsel true)|exact (Hsib [5%positive] SiblingBefore)].
Defined.

(** ** Node data *)

(** X2: [getNodeData] after [setNodeData] on the same node returns the
    record that was set; the node keeps its id, children and flags, every
    other node its record, and the index is not touched. *)
Theorem setNodeData_getNodeData (r : NodeRef) (a : positive) (n : TreeNode)
    (d : IData) (s : State) :
  resolve r s = Some a →
  nodes s !! a = Some n →
  let s' := setNodeData r d s in
  getNodeData r s' = Some d
  ∧ nodes s' !! a = Some (MkNode (id n) d (children n) (options n))
  ∧ (∀ b, b ≠ a → nodes s' !! b = nodes s !! b)
  ∧ idIndex (treeView s') = idIndex (treeView s)
  ∧ enhancedData (treeView s') = enhancedData (treeView s)
  ∧ renders s' = S (renders s).
Proof.
  intros Hr Hn s'. subst s'. unfold setNodeData. rewrite Hr.
  assert (Hr' : resolve r (forceUpdate (Some (enhanceNodes false))
                             (onNode a (node_setData d) s)) = Some a).
  { rewrite <- Hr. by apply resolve_index. }
  unfold getNodeData. rewrite Hr'. simpl. rewrite lookup_alter_eq, Hn. simpl.
  repeat split. intros b Hb. by rewrite lookup_alter_ne.
Qed.

Lemma setNodeData_getNodeData_witness :
  let d := Scenario.named "b" [] GcNotCallable in
  let s' := setNodeData (RefId (IdStr "b")) d Scenario.forest in
  getNodeData (RefId (IdStr "b")) s' = Some d
  ∧ nodes s' !! 2%positive
    = Some (MkNode (IdStr "b") d []
              (MkOptions (Some 1%positive) false true false false false DcUndefined))
  ∧ (∀ b, b ≠ 2%positive → nodes s' !! b = nodes Scenario.forest !! b)
  ∧ idIndex (treeView s') = idIndex (treeView Scenario.forest)
  ∧ enhancedData (treeView s') = enhancedData (treeView Scenario.forest)
  ∧ renders s' = S (renders Scenario.forest).
Proof.
  apply (setNodeData_getNodeData (RefId (IdStr "b")) 2
           (MkNode (IdStr "b") (Scenario.named "b" [] GcAbsent) []
              (MkOptions (Some 1%positive) false true false false false DcUndefined)));
    vm_compute; reflexivity.
Defined.

(** ** Toggling *)

(** X3: on a node without a fetch capability [setOpen] is a toggle: it
    returns without awaiting, flips the opened flag and invokes nothing;
    a second call brings every node object back to what it was. *)
Theorem setOpen_toggles (r : NodeRef) (a : positive) (n : TreeNode) (s : State) :
  resolve r s = Some a →
  nodes s !! a = Some n →
  fetchCapability a s = None →
  ∃ s1 s2,
    setOpen r s = Done s1 tt
    ∧ isOpened a s1 = negb (isOpened a s)
    ∧ (∀ b, b ≠ a → nodes s1 !! b = nodes s !! b)
    ∧ fetches s1 = fetches s
    ∧ idIndex (treeView s1) = idIndex (treeView s)
    ∧ setOpen r s1 = Done s2 tt
    ∧ nodes s2 = nodes s
    ∧ fetches s2 = fetches s
    ∧ renders s2 = S (S (renders s)).
Proof.
  intros Hr Hn Hf.
  assert (Hstep : ∀ t, resolve r t = Some a → fetchCapability a t = None →
            setOpen r t
            = Done (forceUpdate (Some (enhanceNodes false))
                      (enhanceNodes false
                         (onNode a (node_setOpened (negb (isOpened a t))) t))) tt).
  { intros t Hrt Hft. unfold setOpen. by rewrite Hrt, Hft. }
  set (s1 := forceUpdate (Some (enhanceNodes false))
               (enhanceNodes false (onNode a (node_setOpened (negb (isOpened a s))) s))).
  assert (Ho1 : isOpened a s1 = negb (isOpened a s)).
  { unfold isOpened at 1. subst s1. simpl. by rewrite lookup_alter_eq, Hn. }
  assert (Hr1 : resolve r s1 = Some a) by (rewrite <- Hr; by apply resolve_index).
  assert (Hf1 : fetchCapability a s1 = None).
  { rewrite <- Hf. by apply (fetchCapability_alter a a (node_setOpened (negb (isOpened a s)))). }
  eexists s1, _. split; [by apply Hstep|]. split; [done|].
  split; [intros b Hb; subst s1; simpl; by rewrite lookup_alter_ne|].
  split; [done|]. split; [done|]. split; [by apply Hstep|].
  split; [|done]. rewrite Ho1, negb_involutive. subst s1. simpl.
  apply map_eq. intros b. rewrite !lookup_alter.
  destruct (decide (a = b)) as [<-|?]; [|done].
  rewrite Hn. unfold isOpened. rewrite Hn. simpl.
  rewrite decide_True by done. simpl. f_equal.
  by destruct n as [i d c []].
Qed.

Lemma setOpen_toggles_witness :
  ∃ s1 s2,
    setOpen (RefId (IdStr "a")) Scenario.forest = Done s1 tt
    ∧ isOpened 1 s1 = negb (isOpened 1 Scenario.forest)
    ∧ (∀ b, b ≠ 1%positive → nodes s1 !! b = nodes Scenario.forest !! b)
    ∧ fetches s1 = fetches Scenario.forest
    ∧ idIndex (treeView s1) = idIndex (treeView Scenario.forest)
    ∧ setOpen (RefId (IdStr "a")) s1 = Done s2 tt
    ∧ nodes s2 = nodes Scenario.forest
    ∧ fetches s2 = fetches Scenario.forest
    ∧ renders s2 = S (S (renders Scenario.forest)).
Proof.
  assert (Hn : ∃ n, nodes Scenario.forest !! 1%positive = Some n)
    by (vm_compute; by eexists).
  destruct Hn as [n Hn].
  apply (setOpen_toggles (RefId (IdStr "a")) 1 n Scenario.forest);
    [vm_compute; reflexivity|exact Hn|vm_compute; reflexivity].
Defined.

(** ** Paths *)

Lemma split_app sep p q :
  split sep (String.append p (String sep q)) = split sep p ++ split sep q.
Proof.
  induction p as [|c p IH]; simpl.
  - by rewrite Ascii.eqb_refl.
  - rewrite IH. destruct (Ascii.eqb c sep); [done|].
    pose proof (split_nonempty sep p). by destruct (split sep p).
Qed.

Lemma split_no_separator sep w : contains sep w = false → split sep w = [w].
Proof.
  induction w as [|c w IH]; simpl; [done|].
  intros [Hc Hw]%orb_false_elim. rewrite Hc, (IH Hw). done.
Qed.

(** Splitting what [join] made gives the segments back, but for the empty
    array, whose join is the empty string: that splits into one empty
    segment. *)
Lemma split_join sep l :
  Forall (λ w, contains sep w = false) l →
  split sep (join sep l) = match l with [] => [EmptyString] | _ => l end.
Proof.
  induction 1 as [|w l Hw Hl IH]; [done|].
  destruct l as [|w' l]; [by apply split_no_separator|].
  change (join sep (w :: w' :: l))
    with (String.append w (String sep (join sep (w' :: l)))).
  by rewrite split_app, IH, split_no_separator.
Qed.

Lemma setOpen_unresolved i s : getNodeById i s = None → setOpen (RefId i) s = Done s tt.
Proof. intros Hi. unfold setOpen. simpl. by rewrite Hi. Qed.

(** X4: a path none of whose segments resolves is skipped whole:
    [setOpenByPath] returns without awaiting and leaves the state as it
    is.  The empty path is the case of one empty segment. *)
Theorem setOpenByPath_unresolved (path : string) (s : State) :
  Forall (λ seg, getNodeById (IdStr seg) s = None) (split "/" path) →
  setOpenByPath path s = Done s tt.
Proof.
  unfold setOpenByPath. generalize (split "/" path). intros segs Hsegs.
  assert (H : ∀ m : Async unit, m s = Done s tt →
            foldl (λ previousPromise currentPath,
                     bind previousPromise (λ _, setOpen (RefId (IdStr currentPath))))
                  m segs s = Done s tt).
  { induction Hsegs as [|seg segs Hseg _ IH]; intros m Hm; simpl; [done|].
    apply IH. unfold bind. rewrite Hm. simpl. by apply setOpen_unresolved. }
  by apply H.
Qed.

Lemma setOpenByPath_unresolved_witness :
  setOpenByPath "x//y" Scenario.forest = Done Scenario.forest tt
  ∧ setOpenByPath "" Scenario.forest = Done Scenario.forest tt.
Proof.
  split; apply setOpenByPath_unresolved; repeat constructor.
Defined.

(** X5: opening [p/q] is opening [p], then opening [q]. *)
Theorem setOpenByPath_append (env : State → FetchCall → FetchResult) (p q : string)
    (s : State) :
  (run env (setOpenByPath (String.append p (String "/" q))) s).1
  = (run env (setOpenByPath q) (run env (setOpenByPath p) s).1).1.
Proof.
  unfold setOpenByPath. rewrite !run_foldl_setOpen, split_app, foldl_app. done.
Qed.

(** X6: [setSelectedByPath] opens every segment but the last, first to
    last, each to its end, and then selects; a path of one segment has no
    segment to open, and yet [setOpen] is called once, on the empty id. *)
Theorem setSelectedByPath_steps (env : State → FetchCall → FetchResult) (path : string)
    (all : bool) (s : State) :
  (run env (setSelectedByPath path all) s).1
  = selectByPath path all
      (foldl (λ st seg, (run env (setOpen (RefId (IdStr seg))) st).1) s
         (match sliceInit (split "/" path) with
          | [] => [EmptyString]
          | ancestors => ancestors
          end)).
Proof.
  unfold setSelectedByPath. rewrite run_bind. unfold run at 1. simpl.
  f_equal. unfold setOpenByPath. rewrite run_foldl_setOpen. simpl.
  rewrite split_join; [by destruct (sliceInit (split "/" path))|].
  unfold sliceInit. apply Forall_take, split_segments.
Qed.

(** ** The raw dataset, again *)

(** X7: the effect settles in one step: once it has run, running it
    again on the same data calls [setLocalData] no more, whatever the hash
    function; so the tree is not built twice for one dataset. *)
Theorem useEffect_settles (hash : list IData → string) (d : RawData)
    (localData : list IData) :
  useEffect hash d (nextLocalData hash d localData) = None
  ∧ nextLocalData hash d (nextLocalData hash d localData)
    = nextLocalData hash d localData
  ∧ hash (nextLocalData hash d localData) = hash (formattedData d).
Proof.
  unfold nextLocalData, useEffect. simpl.
  destruct (String.eqb (hash (formattedData d)) (hash localData)) eqn:E; simpl.
  - rewrite E. simpl. apply String.eqb_eq in E. done.
  - rewrite String.eqb_refl. done.
Qed.

(** ** Selecting *)

Lemma graph_in_store h roots a : a ∈ graph h roots → is_Some (h !! a).
Proof. intros Ha%elem_of_graph_reachable. by apply reachable_chain in Ha as [? _]. Qed.

(** Under single-select, after [setSelected(node, true)] a node of the
    graph is selected only if it is the node of the call. *)
Lemma setSelected_true_only r s x :
  multipleSelect s = false → x ∈ graphOf s →
  isSelected x (setSelected r true s) = true → resolve r s = Some x.
Proof.
  intros Hm Hx. pose proof (isSelected_unselectAll x s Hx) as Hx'.
  unfold setSelected. rewrite Hm. simpl.
  destruct r as [a|i]; simpl.
  - intros [[_ ->]|E]%isSelected_select; congruence.
  - change (getNodeById i (unselectAll s)) with (getNodeById i s).
    destruct (getNodeById i s) as [a|]; [|congruence].
    intros [[_ ->]|E]%isSelected_select; congruence.
Qed.

Lemma setSelected_true_sets r a s v :
  resolve r s = Some a → is_Some (nodes s !! a) →
  isSelected a (setSelected r v s) = v.
Proof.
  intros Hr [n Hn]. unfold setSelected.
  set (t := if negb (multipleSelect s) && v then unselectAll s else s).
  assert (Hrt : resolve r t = Some a).
  { rewrite <- Hr. apply resolve_index. subst t. by destruct (negb _ && v). }
  assert (Hnt : is_Some (nodes t !! a)).
  { subst t. destruct (negb _ && v); [|by eexists]. simpl.
    generalize (graph (nodes s) (enhancedData (treeView s))). intros l.
    induction l as [|x l IH]; simpl; [by eexists|].
    by apply lookup_alter_is_Some. }
  destruct Hnt as [m Hm].
  assert (H : isSelected a (forceUpdate None (onNode a (node_setSelected v) t)) = v).
  { unfold isSelected. simpl. by rewrite lookup_alter_eq, Hm. }
  destruct r as [a'|i]; simpl in *; [by injection Hrt as ->|]. by rewrite Hrt.
Qed.

Lemma filter_only `{EqDecision A} (P : A → Prop) `{∀ x, Decision (P x)} (l : list A) a :
  NoDup l → a ∈ l → (∀ x, x ∈ l → P x ↔ x = a) → filter P l = [a].
Proof.
  induction l as [|x l IH]; intros Hnd Ha HP; [by apply elem_of_nil in Ha|].
  apply NoDup_cons in Hnd as [Hx Hnd]. rewrite filter_cons.
  destruct (decide (x = a)) as [->|Hne].
  - rewrite decide_True by (apply HP; [apply elem_of_cons; by left|done]).
    f_equal. clear IH Ha. induction l as [|y l IH]; [done|].
    assert (y ≠ a) by (intros ->; apply Hx, elem_of_cons; by left).
    rewrite filter_cons, decide_False.
    + apply IH.
      * intros Hin. apply Hx, elem_of_cons. by right.
      * by apply NoDup_cons in Hnd as [_ ?].
      * intros z [->|Hz]%elem_of_cons; apply HP; rewrite !elem_of_cons; auto.
    + intros Hy. apply HP in Hy; [done|]. rewrite !elem_of_cons. auto.
  - rewrite decide_False.
    + apply IH; [done| |].
      * apply elem_of_cons in Ha as [->|Ha]; done.
      * intros z Hz. apply HP, elem_of_cons. by right.
    + intros Hpx. apply HP in Hpx; [done|]. apply elem_of_cons. by left.
Qed.

(** X8: with multi-select disabled, [setSelected(node, true)] leaves at
    most one node of the graph selected whatever was selected before; when
    the node is part of the graph, it is the one selected node. *)
Theorem setSelected_single (r : NodeRef) (s : State) :
  multipleSelect s = false →
  List.length (selectedNodes (setSelected r true s)) ≤ 1
  ∧ (∀ a, resolve r s = Some a → a ∈ graphOf s →
          selectedNodes (setSelected r true s) = [a]).
Proof.
  intros Hm. split.
  - apply singleSelect_count. intros x y. rewrite graphOf_setSelected.
    intros Hx Hy Hsx Hsy.
    pose proof (setSelected_true_only r s x Hm Hx Hsx).
    pose proof (setSelected_true_only r s y Hm Hy Hsy). congruence.
  - intros a Hr Ha. unfold selectedNodes. rewrite graphOf_setSelected.
    apply filter_only; [apply NoDup_remove_dups|by apply elem_of_remove_dups|].
    intros x Hx. rewrite elem_of_remove_dups in Hx. split.
    + intros Hsx. pose proof (setSelected_true_only r s x Hm Hx Hsx). congruence.
    + intros ->. apply setSelected_true_sets; [done|]. by eapply graph_in_store.
Qed.

Lemma setSelected_single_witness :
  List.length (selectedNodes (setSelected (RefId (IdStr "c")) true
                                (setSelected (RefNode 4) true Scenario.forest))) ≤ 1
  ∧ (∀ a, resolve (RefId (IdStr "c")) (setSelected (RefNode 4) true Scenario.forest) = Some a →
          a ∈ graphOf (setSelected (RefNode 4) true Scenario.forest) →
          selectedNodes (setSelected (RefId (IdStr "c")) true
                           (setSelected (RefNode 4) true Scenario.forest)) = [a]).
Proof.
  apply (setSelected_single (RefId (IdStr "c")) (setSelected (RefNode 4) true Scenario.forest)).
  vm_compute. reflexivity.
Defined.

(** X9: with multi-select enabled, [setSelected] sets the flag of its
    node and of no other: the rest of the selection stays. *)
Theorem setSelected_multiple (r : NodeRef) (a : positive) (v : bool) (s : State) :
  multipleSelect s = true →
  resolve r s = Some a →
  is_Some (nodes s !! a) →
  isSelected a (setSelected r v s) = v
  ∧ (∀ b, b ≠ a → isSelected b (setSelected r v s) = isSelected b s)
  ∧ graphOf (setSelected r v s) = graphOf s.
Proof.
  intros Hm Hr Ha. split; [by apply setSelected_true_sets|].
  split; [|apply graphOf_setSelected].
  intros b Hb. unfold setSelected. rewrite Hm. simpl.
  assert (H : isSelected b (forceUpdate None (onNode a (node_setSelected v) s))
              = isSelected b s).
  { unfold isSelected. simpl. by rewrite lookup_alter_ne. }
  destruct r as [a'|i]; simpl in *; [by injection Hr as ->|]. by rewrite Hr.
Qed.

Lemma setSelected_multiple_witness :
  let s' := setSelected (RefId (IdStr "d")) true Scenario.forestMulti in
  isSelected 4 s' = true
  ∧ (∀ b, b ≠ 4%positive → isSelected b s' = isSelected b Scenario.forestMulti)
  ∧ graphOf s' = graphOf Scenario.forestMulti.
Proof.
  apply (setSelected_multiple (RefId (IdStr "d")) 4 true Scenario.forestMulti);
    vm_compute; [reflexivity|reflexivity|by eexists].
Defined.

Lemma multipleSelect_setLoading r b s :
  multipleSelect (setLoading r b s) = multipleSelect s.
Proof. destruct r as [a|i]; simpl; [done|]. by destruct (getNodeById i s). Qed.

Lemma multipleSelect_setRawChildren r cs t b s :
  multipleSelect (setRawChildren r cs t b s) = multipleSelect s.
Proof.
  unfold setRawChildren, staticEnhance. destruct (wrapAll _ _ _ _ _) as [h ws].
  destruct r as [a|i]; simpl; [done|].
  by match goal with |- context [getNodeById ?i ?t] => destruct (getNodeById i t) end.
Qed.

Lemma multipleSelect_run_setOpen env r s :
  multipleSelect (run env (setOpen r) s).1 = multipleSelect s.
Proof.
  unfold run, setOpen. destruct (resolve r s) as [a|]; [|done].
  destruct (fetchCapability a s) as [f|], (isOpened a s); try done.
  rewrite runSusp_Await. unfold afterGetChildren.
  set (s1 := invokeGetChildren _ _).
  assert (H1 : multipleSelect s1 = multipleSelect s) by done.
  destruct (env s1 _) as [recs|e]; [|done].
  change (multipleSelect
            (setRawChildren r recs (Some ChildLast) true
               (onNode a (node_setOpened true) (setLoading r false s1)))
          = multipleSelect s).
  rewrite multipleSelect_setRawChildren.
  change (multipleSelect (setLoading r false s1) = multipleSelect s).
  by rewrite multipleSelect_setLoading.
Qed.

Lemma multipleSelect_run_setOpenByPath env path s :
  multipleSelect (run env (setOpenByPath path) s).1 = multipleSelect s.
Proof.
  unfold setOpenByPath. rewrite run_foldl_setOpen. simpl.
  generalize (split "/" path). intros segs. revert s.
  induction segs as [|seg segs IH]; intros s; simpl; [done|].
  by rewrite IH, multipleSelect_run_setOpen.
Qed.

Lemma multipleSelect_selectEach segs s :
  multipleSelect
    (foldl (λ st currentPath,
              if truthyStr currentPath
              then setSelected (RefId (IdStr currentPath)) true st
              else st) s segs) = multipleSelect s.
Proof.
  revert s. induction segs as [|w segs IH]; intros s; cbn [foldl]; [done|].
  rewrite IH. destruct (truthyStr w); [apply multipleSelect_setSelected|done].
Qed.

Lemma singleSelect_after_true r s :
  multipleSelect s = false → singleSelect (setSelected r true s).
Proof.
  intros Hm x y. rewrite graphOf_setSelected. intros Hx Hy Hsx Hsy.
  pose proof (setSelected_true_only r s x Hm Hx Hsx).
  pose proof (setSelected_true_only r s y Hm Hy Hsy). congruence.
Qed.

Lemma singleSelect_selectEach segs s :
  multipleSelect s = false → existsb truthyStr segs = true →
  singleSelect
    (foldl (λ st currentPath,
              if truthyStr currentPath
              then setSelected (RefId (IdStr currentPath)) true st
              else st) s segs).
Proof.
  intros Hm. induction segs as [|w segs IH] using rev_ind; [done|].
  rewrite existsb_app, foldl_snoc. cbn [existsb]. rewrite orb_false_r.
  destruct (truthyStr w).
  - intros _. apply singleSelect_after_true. by rewrite multipleSelect_selectEach.
  - rewrite orb_false_r. exact IH.
Qed.

(** X10: with multi-select disabled, once [setSelectedByPath] has selected
    anything (the last segment is not empty, or with [all] some segment is
    not), at most one node of the graph is selected when it completes,
    whatever the state before and whatever the fetches on the way return:
    under single-select, [all] does not select the whole path. *)
Theorem setSelectedByPath_single (env : State → FetchCall → FetchResult) (path : string)
    (all : bool) (s : State) :
  multipleSelect s = false →
  (if all then existsb truthyStr (split "/" path)
   else match reverse (split "/" path) with
        | lastId :: _ => truthyStr lastId
        | [] => false
        end) = true →
  List.length (selectedNodes (run env (setSelectedByPath path all) s).1) ≤ 1.
Proof.
  intros Hm Hsel. apply singleSelect_count.
  unfold setSelectedByPath. rewrite run_bind. unfold run at 1. simpl.
  set (t := (run env (setOpenByPath _) s).1).
  assert (Ht : multipleSelect t = false)
    by (subst t; by rewrite multipleSelect_run_setOpenByPath).
  unfold selectByPath. destruct all.
  - by apply singleSelect_selectEach.
  - destruct (reverse (split "/" path)) as [|lastId ?]; [done|].
    rewrite Hsel. by apply singleSelect_after_true.
Qed.

Lemma setSelectedByPath_single_witness :
  List.length
    (selectedNodes (run Sample.fails (setSelectedByPath "a/b" true) Scenario.forest).1) ≤ 1.
Proof.
  apply (setSelectedByPath_single Sample.fails "a/b" true Scenario.forest);
    vm_compute; reflexivity.
Defined.

(** ** Siblings under a parent *)



(** X12: [setSiblings] on a target that has no parent and is not a root of
    the view (its root flag is off, or no root carries its id) inserts
    nothing and returns the state as it is. *)
Theorem setSiblings_detached_target (r : NodeRef) (t : positive) (tn : TreeNode)
    (siblings : list positive) (type : InsertSiblingType) (s : State) :
  resolve r s = Some t →
  nodes s !! t = Some tn →
  parent (options tn) = None →
  root (options tn) = false
  ∨ findIndex (λ child, sameId (nodes s) t child) (enhancedData (treeView s)) = None →
  setSiblings r siblings type s = s.
Proof.
  intros Hr Ht Hpar Hno. unfold setSiblings. rewrite Hr, Ht. simpl.
  rewrite Hpar, Ht. simpl. destruct (root (options tn)); [|done].
  destruct Hno as [?|Hno]; [done|]. by rewrite Hno.
Qed.

Lemma setSiblings_detached_target_witness :
  setSiblings (RefNode 3) [4%positive] SiblingAfter Sample.twoRoots = Sample.twoRoots.
Proof.
  assert (Ht : ∃ tn, nodes Sample.twoRoots !! 3%positive = Some tn
                     ∧ parent (options tn) = None)
    by (vm_compute; by eexists).
  destruct Ht as (tn & Ht & Hpar).
  apply (setSiblings_detached_target (RefNode 3) 3 tn); [done|exact Ht|exact Hpar|].
  right. vm_compute. reflexivity.
Defined.

(** ** Dragging *)

(** X13: entering a node records it as the drop target, with the drop
    type, and shows the indicator on it; leaving the recorded target
    changes nothing, while leaving a node with another id clears that
    node's indicator and keeps the target and its indicator. *)
Theorem drag_enter_then_leave (n : positive) (nn : TreeNode) (type : DragContainer)
    (s : State) :
  nodes s !! n = Some nn →
  let s1 := handleDragEnter n type s in
  dropNodeId s1 = Some (id nn)
  ∧ dropType s1 = type
  ∧ indicatorOf n s1 = Some type
  ∧ handleDragLeave n s1 = s1
  ∧ (∀ m mn, nodes s !! m = Some mn → id mn ≠ id nn →
       indicatorOf m (handleDragLeave m s1) = Some (DcBool false)
       ∧ indicatorOf n (handleDragLeave m s1) = Some type
       ∧ dropNodeId (handleDragLeave m s1) = Some (id nn)).
Proof.
  intros Hn s1.
  assert (Hd : dropNodeId s1 = Some (id nn)) by (subst s1; simpl; by rewrite Hn).
  assert (Hn1 : nodes s1 !! n = Some (node_setNodeDropContainer type nn)).
  { subst s1. simpl. by rewrite lookup_alter_eq, Hn. }
  split; [done|]. split; [done|].
  split; [unfold indicatorOf; by rewrite Hn1|].
  split.
  - unfold handleDragLeave. rewrite Hn1, Hd. simpl.
    by rewrite bool_decide_eq_false_2 by (intros H; by apply H).
  - intros m mn Hm Hne.
    assert (m ≠ n) by (intros ->; congruence).
    assert (Hm1 : nodes s1 !! m = Some mn).
    { subst s1. simpl. by rewrite lookup_alter_ne. }
    unfold handleDragLeave. rewrite Hm1, Hd. simpl.
    rewrite bool_decide_eq_true_2 by congruence.
    unfold indicatorOf. simpl.
    rewrite lookup_alter_eq, !(lookup_alter_ne _ _ m n), lookup_alter_ne by done.
    rewrite lookup_alter_eq, Hm, Hn. done.
Qed.

Lemma drag_enter_then_leave_witness :
  let s1 := handleDragEnter 4 (DcStr "after") Scenario.forest in
  dropNodeId s1 = Some (IdStr "d")
  ∧ dropType s1 = DcStr "after"
  ∧ indicatorOf 4 s1 = Some (DcStr "after")
  ∧ handleDragLeave 4 s1 = s1
  ∧ (∀ m mn, nodes Scenario.forest !! m = Some mn → id mn ≠ IdStr "d" →
       indicatorOf m (handleDragLeave m s1) = Some (DcBool false)
       ∧ indicatorOf 4 (handleDragLeave m s1) = Some (DcStr "after")
       ∧ dropNodeId (handleDragLeave m s1) = Some (IdStr "d")).
Proof.
  apply (drag_enter_then_leave 4
           (MkNode (IdStr "d") (Scenario.named "d" [] GcAbsent) []
              (MkOptions None true true false false false DcUndefined))
           (DcStr "after") Scenario.forest).
  vm_compute. reflexivity.
Defined.

(** ** Retrying a failed fetch *)

(** X14: a failed fetch leaves the node closed with its capability and
    its children, so [setOpen] can simply be called again: the next call
    invokes the capability anew, and when that fetch returns records the
    node ends opened, not loading, with the fetched children. *)
Theorem setOpen_retry (r : NodeRef) (a : positive) (f : nat) (s : State) (e : string)
    (recs : list IData) :
  resolve r s = Some a → fetchCapability a s = Some f → isOpened a s = false →
  let c := MkFetchCall f r in
  let s1 := (run (λ _ _, Rejected e) (setOpen r) s).1 in
  let s2 := (run (λ _ _, Resolved recs) (setOpen r) s1).1 in
  isOpened a s1 = false
  ∧ childrenOf a s1 = childrenOf a s
  ∧ consoleErrors s1 = consoleErrors s ++ [e]
  ∧ fetches s1 = fetches s ++ [c]
  ∧ isOpened a s2 = true
  ∧ isLoading a s2 = false
  ∧ fetches s2 = fetches s ++ [c; c]
  ∧ consoleErrors s2 = consoleErrors s ++ [e]
  ∧ Forall2 (wraps (Some a) (nodes s1) (nodes s2)) (childrenOf a s2) recs.
Proof.
  intros Hr Hf Ho c s1 s2.
  pose proof (loading_state r a f s) as (Hn0 & Hv0 & Hr0 & Hf0 & Ho0 & Hc0 & Hl0 & He0).
  assert (Hs1 : s1 = forceUpdate (Some (enhanceNodes false))
                       (consoleError e (invokeGetChildren c (setLoading (RefNode a) true s)))).
  { subst s1. unfold run. by rewrite (setOpen_fetches r a f). }
  set (t := invokeGetChildren c (setLoading (RefNode a) true s)) in *.
  assert (Hr1 : resolve r s1 = Some a).
  { rewrite <- Hr, <- Hr0. apply resolve_index. by rewrite Hs1. }
  assert (Hf1 : fetchCapability a s1 = Some f).
  { rewrite <- Hf, <- Hf0. unfold fetchCapability. by rewrite Hs1. }
  assert (Ho1 : isOpened a s1 = false).
  { rewrite <- Ho, <- Ho0. unfold isOpened. by rewrite Hs1. }
  assert (Hc1 : childrenOf a s1 = childrenOf a s).
  { rewrite <- Hc0. unfold childrenOf. by rewrite Hs1. }
  assert (He1 : consoleErrors s1 = consoleErrors s ++ [e]).
  { rewrite Hs1. simpl. done. }
  assert (Hl1 : fetches s1 = fetches s ++ [c]).
  { rewrite Hs1. simpl. done. }
  destruct (setOpen_opens r a f s1 recs Hr1 Hf1 Ho1) as (_ & _ & Ho2 & Hlo2 & Hl2 & He2 & Hw).
  fold s2 in Ho2, Hlo2, Hl2, He2, Hw.
  repeat split; try done.
  - rewrite Hl2, Hl1, <- app_assoc. done.
  - by rewrite He2.
Qed.

Lemma setOpen_retry_witness :
  let r := RefId (IdStr "a") in
  let c := MkFetchCall 0 r in
  let s1 := (run Sample.fails (setOpen r) Scenario.lazyNamed).1 in
  let s2 := (run (Sample.yields [Scenario.named "b" [] GcAbsent]) (setOpen r) s1).1 in
  isOpened 1 s1 = false
  ∧ childrenOf 1 s1 = childrenOf 1 Scenario.lazyNamed
  ∧ consoleErrors s1 = consoleErrors Scenario.lazyNamed ++ ["boom"%string]
  ∧ fetches s1 = fetches Scenario.lazyNamed ++ [c]
  ∧ isOpened 1 s2 = true
  ∧ isLoading 1 s2 = false
  ∧ fetches s2 = fetches Scenario.lazyNamed ++ [c; c]
  ∧ consoleErrors s2 = consoleErrors Scenario.lazyNamed ++ ["boom"%string]
  ∧ Forall2 (wraps (Some 1%positive) (nodes s1) (nodes s2)) (childrenOf 1 s2)
      [Scenario.named "b" [] GcAbsent].
Proof.
  apply (setOpen_retry (RefId (IdStr "a")) 1 0 Scenario.lazyNamed "boom"
           [Scenario.named "b" [] GcAbsent]); vm_compute; reflexivity.
Defined.

(** ** Dropping *)

Lemma withoutId_alter f b h c l :
  (∀ n, id (f n) = id n) → withoutId (alter f b h) c l = withoutId h c l.
Proof.
  intros Hf. unfold withoutId. induction l as [|x l IH]; [done|].
  rewrite !filter_cons, IH.
  assert (Hx : id <$> alter f b h !! x = id <$> h !! x).
  { rewrite lookup_alter. destruct (decide (b = x)) as [->|?]; [|done].
    destruct (h !! x); simpl; by rewrite ?Hf. }
  by rewrite Hx.
Qed.

(** The drop after its guards: the target's indicator is cleared, the
    source is detached from its parent or from the roots, and only then
    are the target and the drop type looked at. *)
Lemma handleDrop_detaches src sn d s :
  dropNodeId s = Some d → truthyId d = true →
  nodes s !! src = Some sn → d ≠ id sn →
  getNodeById d s ≠ Some src →
  let s1 := setDragContainer (RefId d) (DcBool false) (setDragging false s) in
  let s2 := match parent (options sn) with
            | Some p => onNode p (node_removeChild (nodes s1) (id sn)) s1
            | None =>
                withView (λ v,
                  MkTreeView (tv_id v) (tv_options v)
                    (withoutId (nodes s1) (id sn) (enhancedData v))
                    (flattenedView v) (idIndex v)) s1
            end in
  nodes s1 !! src = Some sn
  ∧ handleDrop src s
    = if bool_decide (dropType s = DcStr "children") then
        match getNodeById d s with
        | None => Threw (onNode src (asChildOf None) s2)
        | Some t =>
            Returned
              (setDropNodeId None
                 (forceUpdate None
                    (enhanceNodes true
                       (onNode t (node_setNodeChildren [src] (Some ChildLast) false)
                          (onNode src (asChildOf (Some t)) s2)))))
        end
      else if bool_decide (dropType s = DcStr "after")
              || bool_decide (dropType s = DcStr "before") then
        Returned
          (setDropNodeId None
             match getNodeById d s with
             | Some t =>
                 setSiblings (RefNode t) [src]
                   (if bool_decide (dropType s = DcStr "before")
                    then SiblingBefore else SiblingAfter) s2
             | None => s2
             end)
      else Returned (setDropNodeId None s2).
Proof.
  intros Hd Htr Hsrc Hne Hself s1 s2.
  assert (Hsrc1 : nodes s1 !! src = Some sn).
  { subst s1. unfold setDragContainer.
    change (getNodeById d (setDragging false s)) with (getNodeById d s).
    destruct (getNodeById d s) as [t|]; [|done]. simpl.
    rewrite lookup_alter_ne; [done|]. intros ->. by apply Hself. }
  split; [done|].
  assert (Hidx : getNodeById d s1 = getNodeById d s).
  { subst s1. unfold setDragContainer.
    change (getNodeById d (setDragging false s)) with (getNodeById d s).
    destruct (getNodeById d s) eqn:E; [|exact E]. exact E. }
  unfold handleDrop. rewrite Hd. cbv zeta. rewrite Htr.
  fold s1. rewrite Hsrc1, Hidx.
  rewrite (bool_decide_eq_true_2 (d ≠ id sn)) by done. simpl andb. cbv iota.
  fold s2. by destruct (getNodeById d s).
Qed.



Lemma withoutId_keeps h c l :
  Forall (λ a, (id <$> h !! a) ≠ Some c) l → withoutId h c l = l.
Proof.
  unfold withoutId. induction 1 as [|x l Hx _ IH]; [done|].
  by rewrite filter_cons, decide_True, IH.
Qed.

Lemma withoutId_removes h c l1 x l2 :
  (id <$> h !! x) = Some c →
  Forall (λ a, (id <$> h !! a) ≠ Some c) (l1 ++ l2) →
  withoutId h c (l1 ++ x :: l2) = l1 ++ l2.
Proof.
  intros Hx [H1 H2]%Forall_app.
  pose proof (withoutId_keeps h c l1 H1) as E1.
  pose proof (withoutId_keeps h c l2 H2) as E2.
  unfold withoutId in *.
  rewrite filter_app, filter_cons, decide_False by (by intros H).
  by rewrite E1, E2.
Qed.

Lemma sameId_alter f b h x y :
  (∀ n, id (f n) = id n) → sameId (alter f b h) x y = sameId h x y.
Proof.
  intros Hf. unfold sameId. rewrite !lookup_alter.
  repeat case_decide; subst;
    repeat match goal with |- context [h !! ?z] => destruct (h !! z) end;
    simpl; by rewrite ?Hf.
Qed.

Lemma findIndex_ext {A} (p q : A → bool) l :
  (∀ x, p x = q x) → findIndex p l = findIndex q l.
Proof. intros H. induction l as [|x l IH]; simpl; [done|]. by rewrite H, IH. Qed.

Lemma findIndex_elem {A} (p : A → bool) l x :
  x ∈ l → p x = true → ∃ i, findIndex p l = Some i.
Proof.
  induction l as [|y l IH]; [by intros ?%elem_of_nil|]. simpl.
  intros [->|Hx]%elem_of_cons Hp.
  - rewrite Hp. by eexists.
  - destruct (p y); [by eexists|]. destruct (IH Hx Hp) as [i ->]. by eexists.
Qed.

Lemma splice_one_Permutation {A} k (x : A) l1 l2 :
  splice k [x] (l1 ++ l2) ≡ₚ l1 ++ x :: l2.
Proof.
  unfold splice. rewrite <- Permutation_middle. simpl.
  rewrite <- Permutation_middle, take_drop. done.
Qed.

Lemma setSiblings_root_eq r t tn i siblings type s :
  resolve r s = Some t → nodes s !! t = Some tn →
  root (options tn) = true → parent (options tn) = None →
  findIndex (λ child, sameId (nodes s) t child) (enhancedData (treeView s)) = Some i →
  setSiblings r siblings type s
  = forceUpdate None
      (enhanceNodes true
         (withView (λ v,
            MkTreeView (tv_id v) (tv_options v)
              (splice (startIndex type i) siblings (enhancedData v))
              (flattenedView v) (idIndex v))
            (withNodes (λ h, foldr (alter asRoot) h siblings) s))).
Proof.
  intros Hr Ht Hroot Hpar Hfind. unfold setSiblings.
  rewrite Hr, Ht. simpl. rewrite Hpar, Ht. simpl. by rewrite Hroot, Hfind.
Qed.

(** X16: a root dropped before or after another root moves among the
    roots: it is taken out and put back right next to the target, so that
    the roots are the same nodes as before, in a new order; the moved node
    is marked a root again, with its leaf flag off, and the index is
    rebuilt. *)
Theorem handleDrop_moves_root (sourceNode t : positive) (sn tn : TreeNode) (d : Id)
    (l1 l2 : list positive) (s : State) :
  nodes s !! sourceNode = Some sn →
  parent (options sn) = None →
  dropNodeId s = Some d → truthyId d = true → d ≠ id sn →
  getNodeById d s = Some t →
  nodes s !! t = Some tn → id tn = d →
  parent (options tn) = None → root (options tn) = true →
  dropType s = DcStr "before" ∨ dropType s = DcStr "after" →
  enhancedData (treeView s) = l1 ++ sourceNode :: l2 →
  Forall (λ c, (id <$> nodes s !! c) ≠ Some (id sn)) (l1 ++ l2) →
  t ∈ l1 ++ l2 →
  ∃ s' i,
    handleDrop sourceNode s = Returned s'
    ∧ findIndex (λ c, sameId (nodes s) t c) (l1 ++ l2) = Some i
    ∧ enhancedData (treeView s')
      = splice (if decide (dropType s = DcStr "before") then i else S i)
          [sourceNode] (l1 ++ l2)
    ∧ enhancedData (treeView s') ≡ₚ enhancedData (treeView s)
    ∧ options <$> nodes s' !! sourceNode
      = Some (MkOptions None true false (opened (options sn)) (selected (options sn))
                (loading (options sn)) (dropContainer (options sn)))
    ∧ idIndex (treeView s') = rebuildIndex (nodes s') (enhancedData (treeView s'))
    ∧ dropNodeId s' = None.
Proof.
  intros Hsrc Hp Hd Htr Hne Ht Htn Hid Htp Htroot Hty Hroots Hothers Hin.
  assert (Hts : t ≠ sourceNode) by (intros ->; congruence).
  destruct (handleDrop_detaches sourceNode sn d s Hd Htr Hsrc Hne) as [Hsrc1 ->];
    [rewrite Ht; congruence|].
  rewrite Hp, Ht.
  set (s1 := setDragContainer (RefId d) (DcBool false) (setDragging false s)) in *.
  assert (Hn1 : nodes s1 = alter (node_setNodeDropContainer (DcBool false)) t (nodes s)).
  { subst s1. unfold setDragContainer.
    change (getNodeById d (setDragging false s)) with (getNodeById d s). by rewrite Ht. }
  assert (Hv1 : treeView s1 = treeView s).
  { subst s1. unfold setDragContainer.
    change (getNodeById d (setDragging false s)) with (getNodeById d s). by rewrite Ht. }
  assert (Ht1 : nodes s1 !! t = Some (node_setNodeDropContainer (DcBool false) tn)).
  { by rewrite Hn1, lookup_alter_eq, Htn. }
  assert (Hroots2 : withoutId (nodes s1) (id sn) (enhancedData (treeView s1)) = l1 ++ l2).
  { rewrite Hn1, withoutId_alter, Hv1, Hroots by done.
    apply withoutId_removes; [by rewrite Hsrc|done]. }
  assert (Hsame : ∀ c, sameId (nodes s1) t c = sameId (nodes s) t c).
  { intros c. rewrite Hn1. by apply sameId_alter. }
  destruct (findIndex_elem (λ c, sameId (nodes s) t c) (l1 ++ l2) t Hin) as [i Hi].
  { unfold sameId. rewrite Htn. by apply bool_decide_eq_true_2. }
  assert (Hnc : bool_decide (dropType s = DcStr "children") = false).
  { apply bool_decide_eq_false_2. by destruct Hty as [-> | ->]. }
  assert (Hba : bool_decide (dropType s = DcStr "after")
                || bool_decide (dropType s = DcStr "before") = true).
  { destruct Hty as [-> | ->]; done. }
  rewrite Hnc, Hba.
  set (type := if bool_decide (dropType s = DcStr "before")
               then SiblingBefore else SiblingAfter).
  assert (Hk : startIndex type i
               = if decide (dropType s = DcStr "before") then i else S i).
  { subst type. by destruct (decide (dropType s = DcStr "before")) as [E|E];
      [rewrite bool_decide_eq_true_2|rewrite bool_decide_eq_false_2]. }
  set (s2 := withView _ s1).
  assert (Hsib : setSiblings (RefNode t) [sourceNode] type s2
                 = forceUpdate None
                     (enhanceNodes true
                        (withView (λ v,
                           MkTreeView (tv_id v) (tv_options v)
                             (splice (startIndex type i) [sourceNode] (enhancedData v))
                             (flattenedView v) (idIndex v))
                           (withNodes (λ h, foldr (alter asRoot) h [sourceNode]) s2)))).
  { apply (setSiblings_root_eq (RefNode t) t
             (node_setNodeDropContainer (DcBool false) tn) i); try done.
    change (enhancedData (treeView s2))
      with (withoutId (nodes s1) (id sn) (enhancedData (treeView s1))).
    change (nodes s2) with (nodes s1).
    rewrite Hroots2, (findIndex_ext _ (λ c, sameId (nodes s) t c)) by apply Hsame.
    done. }
  rewrite Hsib.
  eexists _, i. split; [reflexivity|]. split; [done|].
  assert (Hr' : splice (startIndex type i) [sourceNode]
                  (withoutId (nodes s1) (id sn) (enhancedData (treeView s1)))
                = splice (if decide (dropType s = DcStr "before") then i else S i)
                    [sourceNode] (l1 ++ l2)) by (by rewrite Hroots2, Hk).
  split; [exact Hr'|].
  split.
  { etrans; [|rewrite Hroots; apply splice_one_Permutation]. by rewrite <- Hr'. }
  split; [|done].
  simpl. by rewrite lookup_alter_eq, Hsrc1.
Qed.

Lemma handleDrop_moves_root_witness :
  ∃ s' i,
    handleDrop 5 Scenario.draggingBefore = Returned s'
    ∧ findIndex (λ c, sameId (nodes Scenario.draggingBefore) 1 c) ([1; 4]%positive ++ [])
      = Some i
    ∧ enhancedData (treeView s')
      = splice (if decide (dropType Scenario.draggingBefore = DcStr "before")
                then i else S i) [5%positive] ([1; 4]%positive ++ [])
    ∧ enhancedData (treeView s') ≡ₚ enhancedData (treeView Scenario.draggingBefore)
    ∧ options <$> nodes s' !! 5%positive
      = Some (MkOptions None true false false false false DcUndefined)
    ∧ idIndex (treeView s') = rebuildIndex (nodes s') (enhancedData (treeView s'))
    ∧ dropNodeId s' = None.
Proof.
  refine (handleDrop_moves_root 5 1
            (MkNode (IdStr "e") (Scenario.named "e" [] GcAbsent) []
               (MkOptions None true true false false false DcUndefined))
            (MkNode (IdStr "a")
               (Scenario.named "a"
                  [Scenario.named "b" [] GcAbsent; Scenario.named "c" [] GcAbsent] GcAbsent)
               [2; 3]%positive
               (MkOptions None true false false false false (DcStr "before")))
            (IdStr "a") [1; 4]%positive [] Scenario.draggingBefore
            _ _ _ _ _ _ _ _ _ _ _ _ _ _);
    try (vm_compute; reflexivity); try done.
  - left. vm_compute. reflexivity.
  - repeat constructor; vm_compute; done.
  - apply elem_of_cons. by left.
Defined.

(** X17: the source is detached before the target is looked up.  When
    the recorded drop target does not resolve, a root that is dropped is
    gone from the roots and put back nowhere: with drop type ['children']
    the handler then fails on the missing target; with any other drop
    type it returns, resets the drop target, renders nothing and leaves
    the flattened view and the index as they were. *)
Theorem handleDrop_unresolved_target (sourceNode : positive) (sn : TreeNode) (d : Id)
    (s : State) :
  nodes s !! sourceNode = Some sn →
  parent (options sn) = None →
  dropNodeId s = Some d → truthyId d = true → d ≠ id sn →
  getNodeById d s = None →
  let rest := withoutId (nodes s) (id sn) (enhancedData (treeView s)) in
  (sourceNode ∉ rest)
  ∧ (if decide (dropType s = DcStr "children")
     then ∃ s', handleDrop sourceNode s = Threw s'
                ∧ enhancedData (treeView s') = rest
     else ∃ s', handleDrop sourceNode s = Returned s'
                ∧ enhancedData (treeView s') = rest
                ∧ nodes s' = nodes s
                ∧ flattenedView (treeView s') = flattenedView (treeView s)
                ∧ idIndex (treeView s') = idIndex (treeView s)
                ∧ renders s' = renders s
                ∧ dropNodeId s' = None).
Proof.
  intros Hsrc Hp Hd Htr Hne Hmiss rest. split.
  { subst rest. unfold withoutId. intros [Hid _]%list_elem_of_filter.
    apply Hid. by rewrite Hsrc. }
  destruct (handleDrop_detaches sourceNode sn d s Hd Htr Hsrc Hne) as [_ ->];
    [by rewrite Hmiss|].
  rewrite Hp, Hmiss.
  assert (Hs1 : setDragContainer (RefId d) (DcBool false) (setDragging false s)
                = setDragging false s).
  { unfold setDragContainer.
    change (getNodeById d (setDragging false s)) with (getNodeById d s).
    by rewrite Hmiss. }
  rewrite Hs1.
  destruct (decide (dropType s = DcStr "children")) as [Hty|Hty].
  - rewrite bool_decide_eq_true_2 by done. by eexists.
  - rewrite bool_decide_eq_false_2 by done.
    destruct (bool_decide (dropType s = DcStr "after")
              || bool_decide (dropType s = DcStr "before")); by eexists.
Qed.

Lemma handleDrop_unresolved_target_witness :
  let s := Scenario.draggingNowhere "before" in
  let rest := withoutId (nodes s) (IdStr "e") (enhancedData (treeView s)) in
  (5%positive ∉ rest)
  ∧ (if decide (dropType s = DcStr "children")
     then ∃ s', handleDrop 5 s = Threw s' ∧ enhancedData (treeView s') = rest
     else ∃ s', handleDrop 5 s = Returned s'
                ∧ enhancedData (treeView s') = rest
                ∧ nodes s' = nodes s
                ∧ flattenedView (treeView s') = flattenedView (treeView s)
                ∧ idIndex (treeView s') = idIndex (treeView s)
                ∧ renders s' = renders s
                ∧ dropNodeId s' = None).
Proof.
  refine (handleDrop_unresolved_target 5
            (MkNode (IdStr "e") (Scenario.named "e" [] GcAbsent) []
               (MkOptions None true true false false false DcUndefined))
            (IdStr "ghost") (Scenario.draggingNowhere "before") _ _ _ _ _ _);
    try (vm_compute; reflexivity); done.
Defined.



